(** * The [version] command of the release plugin

    A shallow embedding of [sources/commands/version.ts]: the strategy
    schema, the resolution of the [deferred] flag and of the release
    strategy, the regression guard against the merged ledger, and the write
    to the pending-release record followed by the optional apply step.

    The command talks to four collaborators that are kept apart here:
    - the [semver] package (module [semver] below, a model of its strict
      parser and of its comparison);
    - [Configuration.find] and [Project.find] of the core (class [Core]);
    - the [versionUtils] module of the plugin (class [VersionUtils], with an
      instance written from the design document, whose ordering of versions
      is module [precedence]);
    - the command-line runner [this.cli] (class [Cli]). *)

From Stdlib Require Import NArith Ascii String DecimalString Lia.
From stdpp Require Import base option list strings gmap.

Local Open Scope string_scope.

(** ** Errors and results *)

Inductive Error : Type :=
| WorkspaceRequiredError (projectCwd cwd : string)
| UsageError (message : string)
| TypeError (message : string)
| InvalidBumpError
| InvalidVersionError
| RecordNotFoundError (locator : string)
| MalformedRecordError (locator : string)
| PersistenceError.

Inductive Result (A : Type) : Type :=
| Ok (a : A)
| Throw (e : Error).
Arguments Ok {A} a.
Arguments Throw {A} e.

#[global] Instance Error_eq_dec : EqDecision Error.
Proof. solve_decision. Defined.
#[global] Instance Result_eq_dec {A : Type} `{EqDecision A} : EqDecision (Result A).
Proof. solve_decision. Defined.

#[global] Instance Result_ret : MRet Result := fun _ a => Ok a.
#[global] Instance Result_bind : MBind Result := fun _ _ f r =>
  match r with
  | Ok a => f a
  | Throw e => Throw e
  end.
#[global] Instance Result_fmap : FMap Result := fun _ _ f r =>
  match r with
  | Ok a => Ok (f a)
  | Throw e => Throw e
  end.

(** ** The semver package

    The functions the command calls, as of version 7.1.2 of the package,
    the lower bound of the plugin's [package.json].  Strict mode only (the
    command never passes [loose]).  Strings are sequences of 8-bit
    characters; [trim] therefore strips the ASCII white space only.  A
    prerelease identifier made of digits is a number below
    [MAX_SAFE_INTEGER] and stays a string from there on; two such strings
    are compared as the doubles they convert to ([to_double], the correctly
    rounded conversion of the engine). *)

Module semver.

Definition MAX_LENGTH : nat := 256.
Definition MAX_SAFE_INTEGER : N := 9007199254740991.

Inductive Identifier : Type :=
| Num (n : N)
| Alnum (s : string).

#[global] Instance Identifier_eq_dec : EqDecision Identifier.
Proof. solve_decision. Defined.

Record SemVer : Type := mkSemVer {
  major : N;
  minor : N;
  patch : N;
  prerelease : list Identifier;
  build : list string
}.

(** *** Character classes of the grammar *)

Definition code (c : ascii) : N := N_of_ascii c.

Definition is_digit (c : ascii) : bool :=
  ((48 <=? code c) && (code c <=? 57))%N.

Definition is_letter (c : ascii) : bool :=
  ((65 <=? code c) && (code c <=? 90) || (97 <=? code c) && (code c <=? 122))%N.

Definition is_idchar (c : ascii) : bool :=
  is_digit c || is_letter c || Ascii.eqb c "-".

Definition is_space (c : ascii) : bool :=
  ((9 <=? code c) && (code c <=? 13) || (code c =? 32))%N.

(** *** String helpers: [trim], [split], and the first cut at a separator *)

Fixpoint drop_spaces (l : list ascii) : list ascii :=
  match l with
  | c :: l' => if is_space c then drop_spaces l' else l
  | [] => []
  end.

Definition trim (l : list ascii) : list ascii :=
  rev (drop_spaces (rev (drop_spaces l))).

Fixpoint split (sep : ascii) (l : list ascii) : list (list ascii) :=
  match l with
  | [] => [[]]
  | c :: l' =>
      if Ascii.eqb c sep then [] :: split sep l'
      else match split sep l' with
           | p :: ps => (c :: p) :: ps
           | [] => [[c]]
           end
  end.

Fixpoint cut (sep : ascii) (l : list ascii) : list ascii * option (list ascii) :=
  match l with
  | [] => ([], None)
  | c :: l' =>
      if Ascii.eqb c sep then ([], Some l')
      else let '(a, b) := cut sep l' in (c :: a, b)
  end.

(** *** The tokens NUMERICIDENTIFIER, PRERELEASEIDENTIFIER, BUILDIDENTIFIER *)

(** NUMERICIDENTIFIER: a single zero, or digits that start with 1-9 *)
Definition numeric_identifier (l : list ascii) : bool :=
  match l with
  | [] => false
  | [c] => is_digit c
  | c :: _ => is_digit c && negb (Ascii.eqb c "0") && forallb is_digit l
  end.

(** BUILDIDENTIFIER: one or more of 0-9, A-Z, a-z and the hyphen *)
Definition build_identifier (l : list ascii) : bool :=
  match l with
  | [] => false
  | _ => forallb is_idchar l
  end.

(** PRERELEASEIDENTIFIER: a numeric identifier, or identifier characters
    with at least one that is not a digit *)
Definition prerelease_identifier (l : list ascii) : bool :=
  if forallb is_digit l then numeric_identifier l else build_identifier l.

(** The capture groups of the FULL pattern: an optional v, three numeric
    identifiers separated by dots (groups 1 to 3), then optionally a hyphen
    and dot-separated prerelease identifiers (group 4), then optionally a
    plus sign and dot-separated build identifiers (group 5), anchored at
    both ends. *)
Record Groups : Type := mkGroups {
  m1 : list ascii;
  m2 : list ascii;
  m3 : list ascii;
  m4 : option (list ascii);
  m5 : option (list ascii)
}.

Definition opt_all (p : list ascii → bool) (o : option (list ascii)) : bool :=
  match o with
  | None => true
  | Some l => forallb p (split "." l)
  end.

Definition match_FULL (s : list ascii) : option Groups :=
  let s := match s with
           | c :: r => if Ascii.eqb c "v" then r else s
           | [] => s
           end in
  let '(s, b) := cut "+" s in
  let '(main, p) := cut "-" s in
  match split "." main with
  | [a1; a2; a3] =>
      if numeric_identifier a1 && numeric_identifier a2 && numeric_identifier a3
         && opt_all prerelease_identifier p && opt_all build_identifier b
      then Some (mkGroups a1 a2 a3 p b)
      else None
  | _ => None
  end.

(** *** Numbers *)

Definition digit_value (c : ascii) : N := (code c - 48)%N.

(** [+m[i]] on a string of digits *)
Definition to_number (l : list ascii) : N :=
  fold_left (fun acc c => (10 * acc + digit_value c)%N) l 0%N.

(** [String(n)] for a non-negative integer *)
Definition of_number (n : N) : string :=
  NilZero.string_of_uint (N.to_uint n).

(** The pattern [numeric] of the package: one digit or more, nothing else *)
Definition numeric (l : list ascii) : bool :=
  match l with
  | [] => false
  | _ => forallb is_digit l
  end.

(** The double nearest to a non-negative integer, as an integer: the value
    itself up to 53 bits, and beyond them the 53 leading bits rounded to
    nearest, ties to even.  A version has at most [MAX_LENGTH] characters,
    so the conversion of its digits never overflows. *)
Definition to_double (n : N) : N :=
  let bits := N.size n in
  if (bits <=? 53)%N then n
  else
    let shift := (bits - 53)%N in
    let q := N.shiftr n shift in
    let r := N.land n (N.ones shift) in
    let half := N.shiftl 1 (shift - 1) in
    let q := if (half <? r)%N || ((r =? half)%N && N.odd q) then (q + 1)%N else q in
    N.shiftl q shift.

(** The constructor's treatment of a prerelease identifier: a number when
    it is made of digits and below [MAX_SAFE_INTEGER], the string itself
    otherwise. *)
Definition identifier (l : list ascii) : Identifier :=
  if numeric l && (to_number l <? MAX_SAFE_INTEGER)%N then Num (to_number l)
  else Alnum (string_of_list_ascii l).

Definition Identifier_to_string (i : Identifier) : string :=
  match i with
  | Num n => of_number n
  | Alnum s => s
  end.

(** *** The [SemVer] constructor, [parse] and [valid] *)

Definition invalid (s : string) : Error := TypeError ("Invalid Version: " +:+ s).

Definition SemVer_new (version : string) : Result SemVer :=
  if decide (MAX_LENGTH < String.length version)%nat
  then Throw (TypeError "version is longer than 256 characters")
  else
    match match_FULL (trim (list_ascii_of_string version)) with
    | None => Throw (invalid version)
    | Some m =>
        let major := to_number (m1 m) in
        let minor := to_number (m2 m) in
        let patch := to_number (m3 m) in
        if (MAX_SAFE_INTEGER <? major)%N then Throw (TypeError "Invalid major version")
        else if (MAX_SAFE_INTEGER <? minor)%N then Throw (TypeError "Invalid minor version")
        else if (MAX_SAFE_INTEGER <? patch)%N then Throw (TypeError "Invalid patch version")
        else
          Ok {| major := major; minor := minor; patch := patch;
                prerelease := match m4 m with
                              | None => []
                              | Some p => map identifier (split "." p)
                              end;
                build := match m5 m with
                         | None => []
                         | Some b => map string_of_list_ascii (split "." b)
                         end |}
    end.

Fixpoint join (sep : string) (l : list string) : string :=
  match l with
  | [] => ""
  | [x] => x
  | x :: l' => x +:+ sep +:+ join sep l'
  end.

(** [format()]: the normalised [version] field, build metadata dropped *)
Definition format (v : SemVer) : string :=
  of_number (major v) +:+ "." +:+ of_number (minor v) +:+ "." +:+ of_number (patch v)
  +:+ match prerelease v with
      | [] => ""
      | p => "-" +:+ join "." (map Identifier_to_string p)
      end.

(** [parse(version)]: [null] unless the untrimmed string matches FULL and
    the constructor accepts it *)
Definition parse (version : string) : option SemVer :=
  if decide (MAX_LENGTH < String.length version)%nat then None
  else
    match match_FULL (list_ascii_of_string version) with
    | None => None
    | Some _ =>
        match SemVer_new version with
        | Ok v => Some v
        | Throw _ => None
        end
    end.

(** [valid(version)]: the normalised version, or [null] *)
Definition valid (version : string) : option string :=
  format <$> parse version.

(** *** Precedence: [compareIdentifiers], [compareMain], [comparePre] *)

(** JavaScript's [||] on the numbers -1, 0, 1: the first non-zero one *)
Definition or_else (c d : comparison) : comparison :=
  match c with
  | Eq => d
  | _ => c
  end.

(** Lexicographic order, a proper prefix first: [<] on strings compares
    code units. *)
Fixpoint lex {A : Type} (cmp : A → A → comparison) (a b : list A) : comparison :=
  match a, b with
  | [], [] => Eq
  | [], _ :: _ => Lt
  | _ :: _, [] => Gt
  | x :: a', y :: b' => or_else (cmp x y) (lex cmp a' b')
  end.

Definition compareStrings (a b : string) : comparison :=
  lex Ascii.compare (list_ascii_of_string a) (list_ascii_of_string b).

(** [numeric.test(a)] and, where it holds, the number [+a] *)
Definition number (a : Identifier) : option N :=
  match a with
  | Num n => Some n
  | Alnum s =>
      if numeric (list_ascii_of_string s)
      then Some (to_double (to_number (list_ascii_of_string s)))
      else None
  end.

(** [compareIdentifiers(a, b)]: two numeric identifiers by their numbers, a
    numeric one below any other, two others as strings *)
Definition compareIdentifiers (a b : Identifier) : comparison :=
  match number a, number b with
  | Some x, Some y => N.compare x y
  | Some _, None => Lt
  | None, Some _ => Gt
  | None, None => compareStrings (Identifier_to_string a) (Identifier_to_string b)
  end.

Definition compareMain (a b : SemVer) : comparison :=
  or_else (N.compare (major a) (major b))
    (or_else (N.compare (minor a) (minor b)) (N.compare (patch a) (patch b))).

(** The loop of [comparePre]: identifiers that are identical ([===]) are
    skipped, and the first pair that is not decides by
    [compareIdentifiers], also when that returns 0. *)
Fixpoint comparePre_loop (pa pb : list Identifier) : comparison :=
  match pa, pb with
  | [], [] => Eq
  | _ :: _, [] => Gt
  | [], _ :: _ => Lt
  | a :: pa', b :: pb' =>
      if decide (a = b) then comparePre_loop pa' pb' else compareIdentifiers a b
  end.

(** The body of [comparePre] on the two prerelease arrays: having no
    prerelease is above having one, otherwise the loop decides. *)
Definition compare_prerelease (pa pb : list Identifier) : comparison :=
  match pa, pb with
  | _ :: _, [] => Lt
  | [], _ :: _ => Gt
  | [], [] => Eq
  | _, _ => comparePre_loop pa pb
  end.

Definition comparePre (a b : SemVer) : comparison :=
  compare_prerelease (prerelease a) (prerelease b).

(** [SemVer.prototype.compare] (its shortcut on equal [version] fields
    returns what the two comparisons return there, and is left out) *)
Definition SemVer_compare (a b : SemVer) : comparison :=
  or_else (compareMain a b) (comparePre a b).

(** [compare(a, b)]: both arguments go through the constructor *)
Definition compare (a b : string) : Result comparison :=
  va ← SemVer_new a;
  vb ← SemVer_new b;
  Ok (SemVer_compare va vb).

Definition is_Lt (c : comparison) : bool :=
  match c with Lt => true | _ => false end.
Definition is_Gt (c : comparison) : bool :=
  match c with Gt => true | _ => false end.

(** [lt(a, b)] is [compare(a, b) < 0] *)
Definition lt (a b : string) : Result bool := is_Lt <$> compare a b.

(** *** Ranges

    A fragment of the range grammar of the package, enough to tell a
    range from a version: one comparator, that is one of the operators
    below (or none) followed by a full version.  [validRange] accepts
    every such string. *)

Definition operators : list string := ["^"; "~"; "<="; ">="; "<"; ">"; "="; ""].

Fixpoint strip_prefix (p s : list ascii) : option (list ascii) :=
  match p, s with
  | [], _ => Some s
  | c :: p', d :: s' => if Ascii.eqb c d then strip_prefix p' s' else None
  | _ :: _, [] => None
  end.

Definition comparator (range : string) : bool :=
  existsb
    (fun op =>
       match strip_prefix (list_ascii_of_string op) (list_ascii_of_string range) with
       | Some v => bool_decide (parse (string_of_list_ascii v) ≠ None)
       | None => false
       end)
    operators.

End semver.

(** ** Semantic-version ordering

    Modelled from the spec: the ordering that sections 3 and 4.3 of the
    design document call semantic-version ordering, which [versionUtils] is
    specified with.  It is the precedence of the Semantic Versioning
    specification on the versions that [semver.SemVer_new] builds, a numeric
    identifier standing for its exact value whatever its size. *)

Module precedence.

(** Modelled from the spec: the exact value of a numeric identifier. *)
Definition number (a : semver.Identifier) : option N :=
  match a with
  | semver.Num n => Some n
  | semver.Alnum s =>
      if semver.numeric (list_ascii_of_string s)
      then Some (semver.to_number (list_ascii_of_string s))
      else None
  end.

(** Modelled from the spec: precedence of two identifiers, numeric ones by
    value and below the others, the others in ASCII order. *)
Definition compareIdentifiers (a b : semver.Identifier) : comparison :=
  match number a, number b with
  | Some x, Some y => N.compare x y
  | Some _, None => Lt
  | None, Some _ => Gt
  | None, None =>
      semver.compareStrings (semver.Identifier_to_string a) (semver.Identifier_to_string b)
  end.

(** Modelled from the spec: precedence of two prerelease suffixes, a
    version without one above a version with one, identifier by identifier
    otherwise, the longer suffix above its prefix. *)
Definition compare_prerelease (pa pb : list semver.Identifier) : comparison :=
  match pa, pb with
  | _ :: _, [] => Lt
  | [], _ :: _ => Gt
  | [], [] => Eq
  | _, _ => semver.lex compareIdentifiers pa pb
  end.

(** Modelled from the spec: precedence of two versions, major, minor and
    patch first, build metadata ignored. *)
Definition SemVer_compare (a b : semver.SemVer) : comparison :=
  semver.or_else (semver.compareMain a b)
    (compare_prerelease (semver.prerelease a) (semver.prerelease b)).

(** Modelled from the spec: whether the first version string is above the
    second; a string that is no version is a [TypeError]. *)
Definition gt (a b : string) : Result bool :=
  va ← semver.SemVer_new a;
  vb ← semver.SemVer_new b;
  Ok (semver.is_Gt (SemVer_compare va vb)).

End precedence.

(** ** Data model *)

(** Modelled from the spec: the string enum [Decision] of [versionUtils]
    (the closed set of strategy tokens and the sentinel [undecided]). *)
Module Decision.
Definition MAJOR : string := "major".
Definition MINOR : string := "minor".
Definition PATCH : string := "patch".
Definition PREMAJOR : string := "premajor".
Definition PREMINOR : string := "preminor".
Definition PREPATCH : string := "prepatch".
Definition PRERELEASE : string := "prerelease".
Definition DECLINE : string := "decline".
Definition UNDECIDED : string := "undecided".

(** Modelled from the spec: [Object.values(Decision)], the eight tokens
    and the sentinel. *)
Definition values : list string :=
  [MAJOR; MINOR; PATCH; PREMAJOR; PREMINOR; PREPATCH; PRERELEASE; DECLINE; UNDECIDED].
End Decision.

Record Configuration : Type := {
  preferDeferredVersions : bool
}.

Record Manifest : Type := {
  version : option string
}.

(** A workspace is keyed by its identifier wherever the code keys a [Map]
    by the workspace object. *)
Record Workspace : Type := {
  ident : string;
  manifest : Manifest
}.

(** [change] identifies the change in flight, hence the pending-release
    record that [openVersionFile] opens. *)
Record Project : Type := {
  cwd : string;
  workspaces : list Workspace;
  change : string
}.

(** The pending-release record held in memory. *)
Record VersionFile : Type := {
  locator : string;
  releases : gmap string string;
  nonce : N
}.

(** What the storage holds under a locator: a record that decodes, or
    content that does not. *)
Inductive Stored : Type :=
| Wellformed (releases : gmap string string) (nonce : N)
| Malformed.

Record Storage : Type := {
  records : list (string * Stored);
  writable : bool
}.

(** ** Collaborators *)

Class VersionUtils : Type := {
  suggestStrategy : string → string → option string;
  applyStrategy : option string → string → Result string;
  resolveVersionFiles : Project → Storage → Result (gmap string string);
  openVersionFile : Project → bool → Storage → Result VersionFile;
  saveAll : VersionFile → Storage → Result Storage
}.

(** [this.cli.run(argv)]: the downstream command acts on the storage; its
    exit code is dropped by [execute]. *)
Class Cli : Type := {
  run : list string → Storage → Storage
}.

(** ** The command monad: storage, a trace of the calls made, errors *)

Inductive Event : Type :=
| ResolveVersionFiles
| OpenVersionFile
| ReleasesSet (ident strategy : string)
| SaveAll
| CliRun (argv : list string).

Record World : Type := {
  storage : Storage;
  trace : list Event
}.

Definition M (A : Type) : Type := World → Result A * World.

#[global] Instance M_ret : MRet M := fun _ a w => (Ok a, w).
#[global] Instance M_bind : MBind M := fun _ _ f m w =>
  match m w with
  | (Ok a, w') => f a w'
  | (Throw e, w') => (Throw e, w')
  end.

Definition throw {A : Type} (e : Error) : M A := fun w => (Throw e, w).

Definition lift {A : Type} (r : Result A) : M A := fun w => (r, w).

Definition emit (e : Event) : M unit :=
  fun w => (Ok tt, {| storage := storage w; trace := trace w ++ [e] |}).

(** an awaited call that reads the storage *)
Definition reading {A : Type} (e : Event) (f : Storage → Result A) : M A :=
  fun w => (f (storage w), {| storage := storage w; trace := trace w ++ [e] |}).

(** an awaited call that writes the storage, or fails and leaves it *)
Definition writing (e : Event) (f : Storage → Result Storage) : M unit :=
  fun w =>
    match f (storage w) with
    | Ok st => (Ok tt, {| storage := st; trace := trace w ++ [e] |})
    | Throw err => (Throw err, {| storage := storage w; trace := trace w ++ [e] |})
    end.

(** [await this.cli.run(argv)] *)
Definition running `{Cli} (argv : list string) : M unit :=
  fun w => (Ok tt, {| storage := run argv (storage w); trace := trace w ++ [CliRun argv] |}).

(** ** [commands/version.ts] *)

(** JavaScript truthiness of an optional flag and of [string | null] *)
Definition truthy_flag (b : option bool) : bool :=
  match b with
  | Some true => true
  | _ => false
  end.

Definition truthy (s : option string) : bool :=
  match s with
  | Some s => negb (String.eqb s "")
  | None => false
  end.

(** [acceptedStrategies]: every decision but [undecided] *)
Definition acceptedStrategies : gset string :=
  list_to_set (filter (fun decision => decision ≠ Decision.UNDECIDED) Decision.values).

Record VersionCommand : Type := {
  strategy : string;
  deferred : option bool;
  immediate : option bool;
  force : bool
}.

(** The [test] of [schema.strategy] *)
Definition schema_strategy_test (range : string) : bool :=
  bool_decide (semver.valid range ≠ None) || bool_decide (range ∈ acceptedStrategies).

(** What [Configuration.find] and [Project.find] return for the directory
    the command runs in. *)
Record Context : Type := {
  context_cwd : string;
  configuration : Configuration;
  project : Project;
  workspace : option Workspace
}.

(** The local [deferred] of [execute] *)
Definition execute_deferred (configuration : Configuration) (this : VersionCommand) : bool :=
  let this_deferred := this.(deferred) in
  let this_immediate := this.(immediate) in
  let deferred := configuration.(preferDeferredVersions) in
  let deferred := if truthy_flag this_deferred then true else deferred in
  let deferred := if truthy_flag this_immediate then false else deferred in
  deferred.

Definition no_version_message : string :=
  "Can't bump the version if there wasn't a version to begin with - use 0.0.0 as initial version then run the command again.".

Definition invalid_version_message (currentVersion : string) : string :=
  "Can't bump the version (" +:+ currentVersion +:+ ") if it's not valid semver".

Definition lower_version_message (storedVersion : string) : string :=
  "Can't bump the version to one that would be lower than the current deferred one ("
  +:+ storedVersion +:+ ")".

(** The local [releaseStrategy] of [execute] *)
Definition execute_releaseStrategy `{VersionUtils}
    (this : VersionCommand) (workspace : Workspace) : Result string :=
  let isSemver := semver.valid this.(strategy) in
  let isDeclined := String.eqb this.(strategy) Decision.DECLINE in
  if truthy isSemver then
    match workspace.(manifest).(version) with
    | Some current =>
        match suggestStrategy current this.(strategy) with
        | Some suggestedStrategy => Ok suggestedStrategy
        | None => Ok this.(strategy)
        end
    | None => Ok this.(strategy)
    end
  else
    let currentVersion := workspace.(manifest).(version) in
    (if negb isDeclined then
       match currentVersion with
       | None => Throw (UsageError no_version_message)
       | Some currentVersion =>
           if negb (truthy (semver.valid currentVersion))
           then Throw (UsageError (invalid_version_message currentVersion))
           else Ok tt
       end
     else Ok tt);;
    Ok this.(strategy).

(** The body of [execute] from line 69 on, on what the two awaits of lines
    66 and 67 resolved to; [VersionCommand_execute] below starts at the
    awaits. *)
Definition execute `{VersionUtils} `{Cli} (this : VersionCommand) (context : Context) : M unit :=
  let configuration := context.(configuration) in
  let project := context.(project) in
  match context.(workspace) with
  | None => throw (WorkspaceRequiredError project.(cwd) context.(context_cwd))
  | Some workspace =>
      let deferred := execute_deferred configuration this in
      releaseStrategy ← lift (execute_releaseStrategy this workspace);
      (if negb deferred then
         releases ← reading ResolveVersionFiles (resolveVersionFiles project);
         match releases !! workspace.(ident) with
         | Some storedVersion =>
             thisVersion ← lift (applyStrategy workspace.(manifest).(version) releaseStrategy);
             lower ← lift (semver.lt thisVersion storedVersion);
             if lower : bool then throw (UsageError (lower_version_message storedVersion))
             else mret tt
         | None => mret tt
         end
       else mret tt);;
      versionFile ← reading OpenVersionFile (openVersionFile project true);
      emit (ReleasesSet workspace.(ident) releaseStrategy);;
      let versionFile :=
        {| locator := versionFile.(locator);
           releases := <[workspace.(ident) := releaseStrategy]> versionFile.(releases);
           nonce := versionFile.(nonce) |} in
      writing SaveAll (saveAll versionFile);;
      if negb deferred then running ["version"; "apply"]
      else mret tt
  end.

(** [Configuration.find] and [Project.find] of the core, for the directory
    the command runs in: each resolves or rejects, and neither touches the
    pending-release records. *)
Class Core : Type := {
  Configuration_find : string → Result Configuration;
  Project_find : Configuration → string → Result (Project * option Workspace)
}.

(** [execute] from its first line: the awaits of lines 66 and 67, whose
    rejections are the command's since nothing catches them, then the rest
    of the body on what they resolved to. *)
Definition VersionCommand_execute `{Core} `{VersionUtils} `{Cli}
    (this : VersionCommand) (dir : string) : M unit :=
  configuration ← lift (Configuration_find dir);
  found ← lift (Project_find configuration dir);
  execute this
    {| context_cwd := dir;
       configuration := configuration;
       project := found.1;
       workspace := found.2 |}.

(** ** [versionUtils], from the design document *)

Module versionUtils.

Import semver.

(** Modelled from the spec: the bump that each token stands for (section
    4.1), for every decision but [decline] and [undecided]. *)
Definition bump (v : SemVer) (token : string) : option SemVer :=
  if decide (token = Decision.MAJOR) then
    Some (mkSemVer (major v + 1) 0 0 [] [])
  else if decide (token = Decision.MINOR) then
    Some (mkSemVer (major v) (minor v + 1) 0 [] [])
  else if decide (token = Decision.PATCH) then
    Some (mkSemVer (major v) (minor v) (patch v + 1) [] [])
  else if decide (token = Decision.PREMAJOR) then
    Some (mkSemVer (major v + 1) 0 0 [Num 0] [])
  else if decide (token = Decision.PREMINOR) then
    Some (mkSemVer (major v) (minor v + 1) 0 [Num 0] [])
  else if decide (token = Decision.PREPATCH) then
    Some (mkSemVer (major v) (minor v) (patch v + 1) [Num 0] [])
  else if decide (token = Decision.PRERELEASE) then
    match prerelease v with
    | [] => Some (mkSemVer (major v) (minor v) (patch v + 1) [Num 0] [])
    | p =>
        Some (mkSemVer (major v) (minor v) (patch v)
                match last p with
                | Some (Num n) => removelast p ++ [Num (n + 1)]
                | _ => p ++ [Num 0]
                end [])
    end
  else None.

(** Modelled from the spec: [applyStrategy] of [versionUtils] (section 4.1).
    A valid semver string is the result verbatim; a token against no
    version is an [InvalidBumpError]; [major], [minor] and [patch]
    increment their component, zero the lower ones and strip the
    prerelease suffix; the [pre] variants append [-0]; [prerelease]
    increments the trailing numeric component of an existing suffix (a
    suffix that ends otherwise gets a [0] appended) or increments the
    patch and appends [-0]; [decline] leaves the version unchanged;
    anything else is an [InvalidVersionError], and so is a current version
    that does not parse, which the contract excludes by type. *)
Definition applyStrategy (current : option string) (strategy : string) : Result string :=
  if bool_decide (valid strategy ≠ None) then Ok strategy
  else if bool_decide (strategy ∈ acceptedStrategies) then
    match current with
    | None => Throw InvalidBumpError
    | Some current =>
        if decide (strategy = Decision.DECLINE) then Ok current
        else
          match parse current with
          | None => Throw InvalidVersionError
          | Some v =>
              match bump v strategy with
              | Some v' => Ok (format v')
              | None => Throw InvalidVersionError
              end
          end
    end
  else Throw InvalidVersionError.

(** Modelled from the spec: [suggestStrategy] of [versionUtils] (section
    4.1).  The target is compared with the result of applying [major],
    [minor], [patch] and their [pre] variants to the current version; the
    token is offered when exactly one produces that exact string. *)
Definition suggestStrategy (from to : string) : option string :=
  match
    filter (fun token => applyStrategy (Some from) token = Ok to)
      [Decision.MAJOR; Decision.MINOR; Decision.PATCH;
       Decision.PREMAJOR; Decision.PREMINOR; Decision.PREPATCH]
  with
  | [token] => Some token
  | _ => None
  end.

(** Modelled from the spec: the decoding of what the storage holds under a
    locator; content that does not decode is a [MalformedRecordError] that
    names the record (section 4.3). *)
Definition decode (entry : string * Stored) : Result VersionFile :=
  match entry.2 with
  | Wellformed releases nonce =>
      Ok {| locator := entry.1; releases := releases; nonce := nonce |}
  | Malformed => Throw (MalformedRecordError entry.1)
  end.

(** Modelled from the spec: the discovery of every record, which fails as a
    whole when one record does not decode (section 4.3). *)
Fixpoint decode_all (entries : list (string * Stored)) : Result (list VersionFile) :=
  match entries with
  | [] => Ok []
  | entry :: entries' =>
      record ← decode entry;
      records ← decode_all entries';
      Ok (record :: records)
  end.

(** Modelled from the spec: the higher of the best candidate so far and a
    new one, under semantic-version ordering (section 4.3). *)
Definition keep_max (best : option string) (candidate : string) : Result string :=
  match best with
  | None => Ok candidate
  | Some best =>
      higher ← precedence.gt candidate best;
      Ok (if higher : bool then candidate else best)
  end.

(** Modelled from the spec: the candidates of one workspace, record after
    record, merged into their maximum (section 4.3). *)
Fixpoint merge (w : Workspace) (records : list VersionFile) (best : option string)
    : Result (option string) :=
  match records with
  | [] => Ok best
  | record :: records' =>
      match record.(releases) !! w.(ident) with
      | None => merge w records' best
      | Some strategy =>
          candidate ← applyStrategy w.(manifest).(version) strategy;
          best' ← keep_max best candidate;
          merge w records' (Some best')
      end
  end.

(** Modelled from the spec: the ledger, one entry per workspace that some
    record declares (section 4.3). *)
Fixpoint merge_all (ws : list Workspace) (records : list VersionFile)
    : Result (gmap string string) :=
  match ws with
  | [] => Ok ∅
  | w :: ws' =>
      best ← merge w records None;
      ledger ← merge_all ws' records;
      Ok match best with
         | Some v => <[w.(ident) := v]> ledger
         | None => ledger
         end
  end.

(** Modelled from the spec: [resolveVersionFiles] of [versionUtils]
    (section 4.3).  Every record of the storage is decoded (one that does
    not decode fails the whole call); for each workspace of the project,
    each record that names it yields a candidate, the record's strategy
    applied to the workspace's current version; the ledger maps the
    workspace to the maximum candidate under semver precedence.  Nothing
    is written. *)
Definition resolveVersionFiles (project : Project) (st : Storage)
    : Result (gmap string string) :=
  records ← decode_all st.(records);
  merge_all project.(workspaces) records.

(** Modelled from the spec: the lookup of a record by its locator (section
    4.2). *)
Fixpoint find_record (locator : string) (entries : list (string * Stored))
    : option (string * Stored) :=
  match entries with
  | [] => None
  | entry :: entries' =>
      if decide (entry.1 = locator) then Some entry else find_record locator entries'
  end.

(** Modelled from the spec: [open] of the pending-release record (section
    4.2), here [openVersionFile].  The record of the current change is
    loaded if present; absent, it is a new empty record when [allowEmpty]
    holds and a [RecordNotFoundError] otherwise. *)
Definition openVersionFile (project : Project) (allowEmpty : bool) (st : Storage)
    : Result VersionFile :=
  match find_record project.(change) st.(records) with
  | Some entry => decode entry
  | None =>
      if allowEmpty
      then Ok {| locator := project.(change); releases := ∅; nonce := 0 |}
      else Throw (RecordNotFoundError project.(change))
  end.

(** Modelled from the spec: the replacement of what the storage holds under
    a locator, or its creation (section 4.2). *)
Fixpoint put_record (locator : string) (content : Stored) (entries : list (string * Stored))
    : list (string * Stored) :=
  match entries with
  | [] => [(locator, content)]
  | entry :: entries' =>
      if decide (entry.1 = locator) then (locator, content) :: entries'
      else entry :: put_record locator content entries'
  end.

(** Modelled from the spec: [saveAll] of the pending-release record
    (section 4.2).  The whole in-memory state replaces what the storage
    holds under the record's locator; an I/O failure is a
    [PersistenceError] and leaves storage and memory as they were. *)
Definition saveAll (file : VersionFile) (st : Storage) : Result Storage :=
  if st.(writable)
  then Ok {| records := put_record file.(locator)
                          (Wellformed file.(releases) file.(nonce)) st.(records);
             writable := true |}
  else Throw PersistenceError.

End versionUtils.

#[global] Instance versionUtils_spec : VersionUtils := {|
  suggestStrategy := versionUtils.suggestStrategy;
  applyStrategy := versionUtils.applyStrategy;
  resolveVersionFiles := versionUtils.resolveVersionFiles;
  openVersionFile := versionUtils.openVersionFile;
  saveAll := versionUtils.saveAll
|}.

(** Modelled from the spec: the apply step behind [yarn version apply]
    rewrites manifests, which [Storage] does not hold; pending-release
    records are never deleted automatically (section 3). *)
#[global] Instance cli_spec : Cli := {|
  run := fun _ st => st
|}.

(** ** Vocabulary of the statements *)

(** The eight strategy tokens *)
Definition tokens : list string :=
  [Decision.MAJOR; Decision.MINOR; Decision.PATCH; Decision.PREMAJOR;
   Decision.PREMINOR; Decision.PREPATCH; Decision.PRERELEASE; Decision.DECLINE].

(** The record as [execute] hands it to [saveAll]. *)
Definition decided (file : VersionFile) (ws : Workspace) (rs : string) : VersionFile :=
  {| locator := file.(locator);
     releases := <[ws.(ident) := rs]> file.(releases);
     nonce := file.(nonce) |}.

(** The calls of a run that succeeds, in order. *)
Definition events_of (deferred : bool) (ws : Workspace) (rs : string) : list Event :=
  (if deferred then [] else [ResolveVersionFiles])
  ++ [OpenVersionFile; ReleasesSet ws.(ident) rs; SaveAll]
  ++ (if deferred then [] else [CliRun ["version"; "apply"]]).

Section Guard.
Context `{VersionUtils}.

(** The regression guard of an immediate run let the decision through. *)
Definition guard_passed (project : Project) (ws : Workspace) (rs : string) (st : Storage) : Prop :=
  ∃ ledger, resolveVersionFiles project st = Ok ledger ∧
    match ledger !! ws.(ident) with
    | Some storedVersion =>
        ∃ thisVersion, applyStrategy ws.(manifest).(version) rs = Ok thisVersion ∧
                       semver.lt thisVersion storedVersion = Ok false
    | None => True
    end.

End Guard.

Section GuardResult.
Context `{VersionUtils}.

(** What the body of [if (!deferred)] in [execute] evaluates to on a
    storage: the error it throws, or nothing. *)
Definition guard_result (project : Project) (ws : Workspace) (rs : string) (st : Storage)
    : Result unit :=
  releases ← resolveVersionFiles project st;
  match releases !! ws.(ident) with
  | Some storedVersion =>
      thisVersion ← applyStrategy ws.(manifest).(version) rs;
      lower ← semver.lt thisVersion storedVersion;
      if lower : bool then Throw (UsageError (lower_version_message storedVersion))
      else Ok tt
  | None => Ok tt
  end.

End GuardResult.

(** The laws of a three-way comparison whose [Eq] need not be equality
    (build metadata is ignored by [SemVer_compare]). *)
Record Order {A : Type} (cmp : A → A → comparison) : Prop := {
  order_refl : ∀ x, cmp x x = Eq;
  order_antisym : ∀ x y, cmp y x = CompOpp (cmp x y);
  order_eq_l : ∀ x y z, cmp x y = Eq → cmp x z = cmp y z;
  order_lt_trans : ∀ x y z, cmp x y = Lt → cmp y z = Lt → cmp x z = Lt
}.

(** The strategies that the records declare for a workspace, in the order of
    the records *)
Definition declared (w : Workspace) (records : list VersionFile) : list string :=
  omap (fun record => record.(releases) !! w.(ident)) records.

(** The merge, on the candidates alone *)
Fixpoint fold_max (candidates : list string) (best : option string) : Result (option string) :=
  match candidates with
  | [] => Ok best
  | candidate :: candidates' =>
      best' ← versionUtils.keep_max best candidate;
      fold_max candidates' (Some best')
  end.

(** ** Fixtures used by the examples *)

Module Fixtures.

Definition workspace_at (v : option string) : Workspace :=
  {| ident := "pkg"; manifest := {| version := v |} |}.

Definition project_of (ws : Workspace) : Project :=
  {| cwd := "/repo"; workspaces := [ws]; change := "change-3" |}.

Definition context_of (prefer : bool) (ws : Workspace) : Context :=
  {| context_cwd := "/repo/packages/pkg";
     configuration := {| preferDeferredVersions := prefer |};
     project := project_of ws;
     workspace := Some ws |}.

Definition command (s : string) (d i : option bool) : VersionCommand :=
  {| strategy := s; deferred := d; immediate := i; force := false |}.

Definition record_of (locator strategy : string) : string * Stored :=
  (locator, Wellformed {[ "pkg" := strategy ]} 0).

Definition world_of (entries : list (string * Stored)) : World :=
  {| storage := {| records := entries; writable := true |}; trace := [] |}.

End Fixtures.

(** * Properties *)

(** ** The models on the examples of the design document *)

Example valid_plain : semver.valid "1.2.3" = Some "1.2.3".
Proof. reflexivity. Qed.
Example valid_normalises : semver.valid "v1.2.3-alpha.1+b-7" = Some "1.2.3-alpha.1".
Proof. reflexivity. Qed.
Example valid_not_a_range : semver.valid "^1.2.3" = None.
Proof. reflexivity. Qed.
Example valid_not_partial : semver.valid "1.2" = None.
Proof. reflexivity. Qed.
Example valid_no_leading_zero : semver.valid "01.2.3" = None.
Proof. reflexivity. Qed.
Example valid_no_leading_space : semver.valid " 1.2.3" = None.
Proof. reflexivity. Qed.
Example valid_numeric_prerelease : semver.valid "1.2.3-01" = None.
Proof. reflexivity. Qed.
Example valid_alphanumeric_prerelease : semver.valid "1.2.3-01a.-" = Some "1.2.3-01a.-".
Proof. reflexivity. Qed.
Example valid_safe_integer : semver.valid "9007199254740992.0.0" = None.
Proof. reflexivity. Qed.
Example lt_prerelease_below_release : semver.lt "1.9.0-alpha" "1.9.0" = Ok true.
Proof. reflexivity. Qed.
Example lt_numeric_identifiers : semver.lt "1.9.0-alpha.2" "1.9.0-alpha.10" = Ok true.
Proof. reflexivity. Qed.
Example lt_numeric_below_alphanumeric : semver.lt "1.9.0-alpha.2" "1.9.0-alpha.beta" = Ok true.
Proof. reflexivity. Qed.
Example lt_build_ignored : semver.lt "1.9.0+a" "1.9.0+b" = Ok false.
Proof. reflexivity. Qed.
Example lt_below_safe_integer :
  semver.lt "1.0.0-9007199254740990" "1.0.0-9007199254740991" = Ok true.
Proof. reflexivity. Qed.
Example lt_same_double :
  semver.lt "1.0.0-9007199254740992" "1.0.0-9007199254740993" = Ok false.
Proof. reflexivity. Qed.
Example lt_same_double_ends_the_loop :
  semver.lt "1.0.0-9007199254740992.1" "1.0.0-9007199254740993.2" = Ok false.
Proof. reflexivity. Qed.
Example lt_identical_is_skipped :
  semver.lt "1.0.0-9007199254740992.1" "1.0.0-9007199254740992.2" = Ok true.
Proof. reflexivity. Qed.
Example to_double_ties_to_even :
  semver.to_double 9007199254740993 = 9007199254740992%N
  ∧ semver.to_double 9007199254740995 = 9007199254740996%N
  ∧ semver.to_double 100000000000000000000000 = 99999999999999991611392%N.
Proof. repeat split; reflexivity. Qed.
Example gt_exact :
  precedence.gt "1.0.0-9007199254740993" "1.0.0-9007199254740992" = Ok true.
Proof. reflexivity. Qed.

(** An immediate run whose candidate is below the pending version by an
    identifier that the package cannot tell apart passes the guard. *)
Example guard_at_same_double :
  execute (Fixtures.command "1.0.0-9007199254740992" None None)
    (Fixtures.context_of false (Fixtures.workspace_at (Some "0.1.0")))
    (Fixtures.world_of [Fixtures.record_of "change-1" "1.0.0-9007199254740993"])
  = (Ok tt,
     {| storage := {| records := [Fixtures.record_of "change-1" "1.0.0-9007199254740993";
                                  Fixtures.record_of "change-3" "1.0.0-9007199254740992"];
                      writable := true |};
        trace := [ResolveVersionFiles; OpenVersionFile;
                  ReleasesSet "pkg" "1.0.0-9007199254740992"; SaveAll;
                  CliRun ["version"; "apply"]] |}).
Proof. vm_compute. reflexivity. Qed.
Example lt_invalid : semver.lt "x" "1.0.0" = Throw (TypeError "Invalid Version: x").
Proof. reflexivity. Qed.

Example applyStrategy_major : versionUtils.applyStrategy (Some "1.2.3-rc.1") "major" = Ok "2.0.0".
Proof. reflexivity. Qed.
Example applyStrategy_preminor : versionUtils.applyStrategy (Some "1.2.3") "preminor" = Ok "1.3.0-0".
Proof. reflexivity. Qed.
Example applyStrategy_prerelease : versionUtils.applyStrategy (Some "1.2.3-rc.1") "prerelease" = Ok "1.2.3-rc.2".
Proof. reflexivity. Qed.
Example applyStrategy_prerelease_fresh : versionUtils.applyStrategy (Some "1.2.3") "prerelease" = Ok "1.2.4-0".
Proof. reflexivity. Qed.
Example applyStrategy_decline : versionUtils.applyStrategy (Some "1.2.3") "decline" = Ok "1.2.3".
Proof. reflexivity. Qed.
Example applyStrategy_null_major : versionUtils.applyStrategy None "major" = Throw InvalidBumpError.
Proof. reflexivity. Qed.
Example applyStrategy_null_explicit : versionUtils.applyStrategy None "1.2.3" = Ok "1.2.3".
Proof. reflexivity. Qed.
Example applyStrategy_unknown : versionUtils.applyStrategy (Some "1.2.3") "bogus" = Throw InvalidVersionError.
Proof. reflexivity. Qed.
Example suggestStrategy_major : versionUtils.suggestStrategy "1.0.0" "2.0.0" = Some "major".
Proof. reflexivity. Qed.
Example suggestStrategy_none : versionUtils.suggestStrategy "1.0.0" "1.0.5" = None.
Proof. reflexivity. Qed.

(** ** The strategy schema *)

Lemma elem_of_acceptedStrategies (s : string) :
  s ∈ acceptedStrategies ↔ s ∈ tokens.
Proof.
  unfold acceptedStrategies. rewrite elem_of_list_to_set.
  replace (filter (λ decision : string, decision ≠ Decision.UNDECIDED) Decision.values)
    with tokens by reflexivity.
  reflexivity.
Qed.

Lemma token_cases (s : string) (P : string → Prop) :
  s ∈ tokens →
  P Decision.MAJOR → P Decision.MINOR → P Decision.PATCH → P Decision.PREMAJOR →
  P Decision.PREMINOR → P Decision.PREPATCH → P Decision.PRERELEASE → P Decision.DECLINE →
  P s.
Proof.
  unfold tokens. rewrite !elem_of_cons, elem_of_nil.
  intros [->|[->|[->|[->|[->|[->|[->|[->|[]]]]]]]]]; auto.
Qed.

Lemma token_not_semver (s : string) :
  s ∈ acceptedStrategies → semver.valid s = None.
Proof.
  rewrite elem_of_acceptedStrategies. intros Hs.
  apply (token_cases s (λ s, semver.valid s = None) Hs); reflexivity.
Qed.

Lemma append_cons_nonempty (a b : string) (c : ascii) :
  String.eqb (a +:+ String c b) "" = false.
Proof. destruct a; reflexivity. Qed.

(** What [valid] returns is never the empty string, so its truthiness in
    [execute] and the comparison with [null] in the schema agree. *)
Lemma truthy_valid (s : string) :
  truthy (semver.valid s) = bool_decide (semver.valid s ≠ None).
Proof.
  unfold semver.valid. destruct (semver.parse s) as [v|]; simpl; [|reflexivity].
  unfold semver.format.
  change ("." +:+ ?x) with (String "." x).
  rewrite append_cons_nonempty. reflexivity.
Qed.

Lemma truthy_valid_Some (s : string) :
  semver.valid s ≠ None → truthy (semver.valid s) = true.
Proof. intros H. rewrite truthy_valid. by apply bool_decide_eq_true. Qed.

Lemma truthy_valid_None (s : string) :
  semver.valid s = None → truthy (semver.valid s) = false.
Proof. intros ->. reflexivity. Qed.

(** ** The release strategy *)

Section ReleaseStrategy.
Context `{VersionUtils}.


Lemma releaseStrategy_decline (this : VersionCommand) (ws : Workspace) :
  this.(strategy) = Decision.DECLINE →
  execute_releaseStrategy this ws = Ok Decision.DECLINE.
Proof.
  intros Hs. unfold execute_releaseStrategy. rewrite Hs. reflexivity.
Qed.

Lemma releaseStrategy_no_version (this : VersionCommand) (ws : Workspace) :
  this.(strategy) ∈ acceptedStrategies →
  this.(strategy) ≠ Decision.DECLINE →
  ws.(manifest).(version) = None →
  execute_releaseStrategy this ws = Throw (UsageError no_version_message).
Proof.
  intros Hs Hd Hv. unfold execute_releaseStrategy.
  rewrite (truthy_valid_None _ (token_not_semver _ Hs)), Hv.
  apply String.eqb_neq in Hd. rewrite Hd. reflexivity.
Qed.

Lemma releaseStrategy_invalid_version (this : VersionCommand) (ws : Workspace) (current : string) :
  this.(strategy) ∈ acceptedStrategies →
  this.(strategy) ≠ Decision.DECLINE →
  ws.(manifest).(version) = Some current →
  semver.valid current = None →
  execute_releaseStrategy this ws = Throw (UsageError (invalid_version_message current)).
Proof.
  intros Hs Hd Hv Hc. unfold execute_releaseStrategy.
  rewrite (truthy_valid_None _ (token_not_semver _ Hs)), Hv.
  apply String.eqb_neq in Hd. rewrite Hd. simpl.
  rewrite (truthy_valid_None _ Hc). reflexivity.
Qed.

End ReleaseStrategy.

(** ** Runs of [execute] *)

Ltac run_execute :=
  unfold execute, mbind, M_bind, mret, M_ret, lift, throw, reading, writing, emit, running.

Section Execute.
Context `{VersionUtils} `{Cli}.

(** A failure of the strategy resolution ends the command at once. *)
Lemma execute_releaseStrategy_throws
    (this : VersionCommand) (context : Context) (ws : Workspace) (e : Error) (w : World) :
  context.(workspace) = Some ws →
  execute_releaseStrategy this ws = Throw e →
  execute this context w = (Throw e, w).
Proof.
  intros Hws Hrs. run_execute. rewrite Hws, Hrs. reflexivity.
Qed.

(** The deferred run: open, set, save. *)
Lemma execute_deferred_run
    (this : VersionCommand) (context : Context) (ws : Workspace) (rs : string) (w : World) :
  context.(workspace) = Some ws →
  execute_deferred context.(configuration) this = true →
  execute_releaseStrategy this ws = Ok rs →
  execute this context w =
    match openVersionFile context.(project) true w.(storage) with
    | Throw e => (Throw e, {| storage := w.(storage); trace := w.(trace) ++ [OpenVersionFile] |})
    | Ok file =>
        let events := [OpenVersionFile; ReleasesSet ws.(ident) rs; SaveAll] in
        match saveAll {| locator := file.(locator);
                         releases := <[ws.(ident) := rs]> file.(releases);
                         nonce := file.(nonce) |} w.(storage) with
        | Throw e => (Throw e, {| storage := w.(storage); trace := w.(trace) ++ events |})
        | Ok st => (Ok tt, {| storage := st; trace := w.(trace) ++ events |})
        end
    end.
Proof.
  intros Hws Hd Hrs. run_execute. rewrite Hws, Hrs, Hd. simpl.
  destruct (openVersionFile _ _ _) as [file|e]; [|reflexivity].
  simpl. destruct (saveAll _ _) as [st|e]; simpl; rewrite <- !app_assoc; reflexivity.
Qed.

End Execute.

Section ExecuteInversion.
Context `{VersionUtils} `{Cli}.

Lemma execute_Ok_inv (this : VersionCommand) (context : Context) (w w' : World) :
  execute this context w = (Ok tt, w') →
  ∃ ws rs file st,
    context.(workspace) = Some ws ∧
    execute_releaseStrategy this ws = Ok rs ∧
    openVersionFile context.(project) true w.(storage) = Ok file ∧
    saveAll (decided file ws rs) w.(storage) = Ok st ∧
    let deferred := execute_deferred context.(configuration) this in
    w' = {| storage := if deferred then st else run ["version"; "apply"] st;
            trace := w.(trace) ++ events_of deferred ws rs |} ∧
    (deferred = false → guard_passed context.(project) ws rs w.(storage)).
Proof.
  run_execute. unfold events_of, guard_passed, decided.
  destruct (workspace context) as [ws|]; [|discriminate].
  destruct (execute_releaseStrategy this ws) as [rs|] eqn:Hrs; [|discriminate].
  destruct (execute_deferred (configuration context) this); simpl.
  - destruct (openVersionFile _ _ _) as [file|] eqn:Hopen; [|discriminate]. simpl.
    destruct (saveAll _ _) as [st|] eqn:Hsave; [|discriminate]. simpl.
    intros [= <-]. exists ws, rs, file, st.
    rewrite <- !app_assoc. by repeat split.
  - destruct (resolveVersionFiles _ _) as [ledger|] eqn:Hres; [|discriminate].
    destruct (ledger !! ident ws) as [stored|] eqn:Hl.
    + destruct (applyStrategy _ _) as [thisVersion|] eqn:Happ; [|discriminate].
      destruct (semver.lt _ _) as [[]|] eqn:Hlt; try discriminate. simpl.
      destruct (openVersionFile _ _ _) as [file|] eqn:Hopen; [|discriminate]. simpl.
      destruct (saveAll _ _) as [st|] eqn:Hsave; [|discriminate]. simpl.
      intros [= <-]. exists ws, rs, file, st.
      rewrite <- !app_assoc. repeat split; try done.
      intros _. exists ledger. rewrite Hl. eauto.
    + simpl.
      destruct (openVersionFile _ _ _) as [file|] eqn:Hopen; [|discriminate]. simpl.
      destruct (saveAll _ _) as [st|] eqn:Hsave; [|discriminate]. simpl.
      intros [= <-]. exists ws, rs, file, st.
      rewrite <- !app_assoc. repeat split; try done.
      intros _. exists ledger. by rewrite Hl.
Qed.

End ExecuteInversion.

(** ** The [deferred] flag *)

(** C9: the resolved [deferred] flag is the [preferDeferredVersions] setting
    by default, [true] under [--deferred], and [false] under [--immediate],
    which wins when both flags are passed. *)
Theorem deferred_flag_resolution
    (configuration : Configuration) (s : string) (d i : option bool) (f : bool) :
  execute_deferred configuration {| strategy := s; deferred := d; immediate := i; force := f |} =
    match i, d with
    | Some true, _ => false
    | _, Some true => true
    | _, _ => configuration.(preferDeferredVersions)
    end.
Proof. destruct i as [[]|], d as [[]|]; reflexivity. Qed.

(** ** Checks on the current version *)

(** C3 (amended): with no current version and an enumerated token other
    than [decline], the command fails with the usage error that asks for an
    initial version, and nothing was opened, set or saved. *)
Theorem bump_without_version_rejected `{VersionUtils} `{Cli}
    (this : VersionCommand) (context : Context) (ws : Workspace) (w : World) :
  context.(workspace) = Some ws →
  ws.(manifest).(version) = None →
  this.(strategy) ∈ acceptedStrategies →
  this.(strategy) ≠ Decision.DECLINE →
  execute this context w = (Throw (UsageError no_version_message), w).
Proof.
  intros Hws Hv Hs Hd.
  apply execute_releaseStrategy_throws with ws; [done|].
  by apply releaseStrategy_no_version.
Qed.

Lemma bump_without_version_rejected_witness :
  execute (Fixtures.command "major" None None)
    (Fixtures.context_of false (Fixtures.workspace_at None)) (Fixtures.world_of [])
  = (Throw (UsageError no_version_message), Fixtures.world_of []).
Proof.
  apply (bump_without_version_rejected _ _ (Fixtures.workspace_at None)).
  - reflexivity.
  - reflexivity.
  - apply elem_of_acceptedStrategies. repeat constructor.
  - discriminate.
Defined.

(** C3 as stated fails on [decline], an enumerated token: with no current
    version the command goes through, and the record is written and saved. *)
Lemma decline_without_version_accepted :
  Decision.DECLINE ∈ tokens ∧
  semver.valid Decision.DECLINE = None ∧
  (Fixtures.workspace_at None).(manifest).(version) = None ∧
  execute (Fixtures.command Decision.DECLINE None None)
    (Fixtures.context_of false (Fixtures.workspace_at None)) (Fixtures.world_of [])
  = (Ok tt,
     {| storage := {| records := [Fixtures.record_of "change-3" "decline"]; writable := true |};
        trace := [ResolveVersionFiles; OpenVersionFile; ReleasesSet "pkg" "decline"; SaveAll;
                  CliRun ["version"; "apply"]] |}).
Proof.
  split; [|split; [|split]].
  - unfold tokens. set_solver.
  - reflexivity.
  - reflexivity.
  - vm_compute. reflexivity.
Qed.

(** C10: with an enumerated token other than [decline] and a current
    version that is not valid semver, the command fails with the usage error
    that quotes that version, and nothing was opened, set or saved; under
    [decline] the strategy resolves whatever the current version is, absent
    or invalid. *)
Theorem bump_of_invalid_version_rejected `{VersionUtils} `{Cli}
    (this : VersionCommand) (context : Context) (ws : Workspace) (current : string) (w : World) :
  context.(workspace) = Some ws →
  ws.(manifest).(version) = Some current →
  semver.valid current = None →
  this.(strategy) ∈ acceptedStrategies →
  this.(strategy) ≠ Decision.DECLINE →
  execute this context w = (Throw (UsageError (invalid_version_message current)), w)
  ∧ ∀ (d i : option bool) (f : bool) (any : Workspace),
      execute_releaseStrategy
        {| strategy := Decision.DECLINE; deferred := d; immediate := i; force := f |} any
      = Ok Decision.DECLINE.
Proof.
  intros Hws Hv Hc Hs Hd. split.
  - apply execute_releaseStrategy_throws with ws; [done|].
    by apply releaseStrategy_invalid_version.
  - intros d i f any. by apply releaseStrategy_decline.
Qed.

Lemma bump_of_invalid_version_rejected_witness :
  execute (Fixtures.command "minor" None None)
    (Fixtures.context_of false (Fixtures.workspace_at (Some "1.0"))) (Fixtures.world_of [])
  = (Throw (UsageError "Can't bump the version (1.0) if it's not valid semver"),
     Fixtures.world_of []).
Proof.
  apply (bump_of_invalid_version_rejected _ _ (Fixtures.workspace_at (Some "1.0")) "1.0").
  - reflexivity.
  - reflexivity.
  - vm_compute. reflexivity.
  - apply elem_of_acceptedStrategies. repeat constructor.
  - discriminate.
Defined.

(** ** What is written into the record *)





(** ** Order of the save and of the apply step *)

(** C7: in a run that succeeds, [saveAll] returned normally on the record
    that carries the decision, the apply command is run exactly when the
    resolved [deferred] flag is [false], it is the last call, after
    [SaveAll], and it acts on the storage that the save produced. *)
Theorem apply_follows_save `{VersionUtils} `{Cli}
    (this : VersionCommand) (context : Context) (w w' : World) :
  execute this context w = (Ok tt, w') →
  let deferred := execute_deferred context.(configuration) this in
  ∃ ws rs file st (events : list Event),
    saveAll (decided file ws rs) w.(storage) = Ok st ∧
    w'.(trace) = (w.(trace) ++ events)%list ∧
    (CliRun ["version"; "apply"] ∈ events ↔ deferred = false) ∧
    (∀ before after, events = (before ++ CliRun ["version"; "apply"] :: after)%list →
       SaveAll ∈ before ∧ after = []) ∧
    w'.(storage) = if deferred then st else run ["version"; "apply"] st.
Proof.
  intros Hrun deferred.
  destruct (execute_Ok_inv _ _ _ _ Hrun) as (ws & rs & file & st & _ & _ & _ & Hsave & Hw' & _).
  fold deferred in Hw'.
  exists ws, rs, file, st, (events_of deferred ws rs).
  split; [exact Hsave|]. rewrite Hw'. simpl. split; [reflexivity|].
  split; [|split; [|reflexivity]].
  - unfold events_of. destruct deferred; simpl; [|set_solver].
    split; [|discriminate].
    rewrite !elem_of_cons, elem_of_nil. intros [?|[?|[?|[]]]]; discriminate.
  - unfold events_of. destruct deferred; simpl; intros before after Heq.
    + assert (Hin : CliRun ["version"; "apply"]
                    ∈ [OpenVersionFile; ReleasesSet (ident ws) rs; SaveAll]).
      { rewrite Heq. set_solver. }
      revert Hin. rewrite !elem_of_cons, elem_of_nil. intros [?|[?|[?|[]]]]; discriminate.
    + destruct before as [|e1 [|e2 [|e3 [|e4 [|e5 before]]]]]; simplify_eq/=.
      * split; [set_solver|reflexivity].
      * destruct before; discriminate.
Qed.

Lemma apply_follows_save_witness :
  ∃ ws rs file st (events : list Event),
    saveAll (decided file ws rs) (Fixtures.world_of []).(storage) = Ok st ∧
    [ResolveVersionFiles; OpenVersionFile; ReleasesSet "pkg" "minor"; SaveAll;
     CliRun ["version"; "apply"]] = ([] ++ events)%list ∧
    (CliRun ["version"; "apply"] ∈ events ↔ false = false) ∧
    (∀ before after, events = (before ++ CliRun ["version"; "apply"] :: after)%list →
       SaveAll ∈ before ∧ after = []) ∧
    {| records := [Fixtures.record_of "change-3" "minor"]; writable := true |}
    = run ["version"; "apply"] st.
Proof.
  apply (apply_follows_save (Fixtures.command "minor" None None)
           (Fixtures.context_of false (Fixtures.workspace_at (Some "1.0.0")))
           (Fixtures.world_of [])
           {| storage := {| records := [Fixtures.record_of "change-3" "minor"];
                            writable := true |};
              trace := [ResolveVersionFiles; OpenVersionFile; ReleasesSet "pkg" "minor";
                        SaveAll; CliRun ["version"; "apply"]] |}).
  vm_compute. reflexivity.
Defined.

(** ** The regression guard *)

(** C8: when the resolved [deferred] flag is [true] and the strategy
    resolves, the run is [openVersionFile], the write of the strategy, and
    [saveAll]: the merged ledger is not consulted, whatever
    [resolveVersionFiles] would return, so no candidate is ever compared
    with a pending version. *)
Theorem deferred_run_skips_ledger `{VersionUtils} `{Cli}
    (this : VersionCommand) (context : Context) (ws : Workspace) (rs : string)
    (file : VersionFile) (st : Storage) (w : World) :
  context.(workspace) = Some ws →
  execute_deferred context.(configuration) this = true →
  execute_releaseStrategy this ws = Ok rs →
  openVersionFile context.(project) true w.(storage) = Ok file →
  saveAll (decided file ws rs) w.(storage) = Ok st →
  execute this context w =
    (Ok tt, {| storage := st;
               trace := w.(trace) ++ [OpenVersionFile; ReleasesSet ws.(ident) rs; SaveAll] |})
  ∧ (decided file ws rs).(releases) !! ws.(ident) = Some rs.
Proof.
  intros Hws Hd Hrs Hopen Hsave. split.
  - rewrite (execute_deferred_run _ _ _ _ _ Hws Hd Hrs), Hopen. simpl.
    unfold decided in Hsave. rewrite Hsave. reflexivity.
  - apply lookup_insert_eq.
Qed.

(** The ledger of the storage commits [pkg] to 2.0.0, the requested [minor]
    computes to 1.9.0, and the deferred run accepts it. *)
Lemma deferred_run_skips_ledger_witness :
  (versionUtils.resolveVersionFiles
     (Fixtures.project_of (Fixtures.workspace_at (Some "1.8.0")))
     {| records := [Fixtures.record_of "change-1" "major"]; writable := true |}
     ≫= fun ledger => Ok (ledger !! "pkg")) = Ok (Some "2.0.0")
  ∧ versionUtils.applyStrategy (Some "1.8.0") "minor" = Ok "1.9.0"
  ∧ semver.lt "1.9.0" "2.0.0" = Ok true
  ∧ execute (Fixtures.command "minor" None None)
      (Fixtures.context_of true (Fixtures.workspace_at (Some "1.8.0")))
      (Fixtures.world_of [Fixtures.record_of "change-1" "major"])
    = (Ok tt,
       {| storage := {| records := [Fixtures.record_of "change-1" "major";
                                    Fixtures.record_of "change-3" "minor"];
                        writable := true |};
          trace := [OpenVersionFile; ReleasesSet "pkg" "minor"; SaveAll] |}).
Proof.
  split; [vm_compute; reflexivity|].
  split; [vm_compute; reflexivity|].
  split; [vm_compute; reflexivity|].
  refine (proj1 (deferred_run_skips_ledger
            (Fixtures.command "minor" None None)
            (Fixtures.context_of true (Fixtures.workspace_at (Some "1.8.0")))
            (Fixtures.workspace_at (Some "1.8.0")) "minor"
            {| locator := "change-3"; releases := ∅; nonce := 0 |}
            {| records := [Fixtures.record_of "change-1" "major";
                           Fixtures.record_of "change-3" "minor"];
               writable := true |}
            (Fixtures.world_of [Fixtures.record_of "change-1" "major"]) _ _ _ _ _));
    vm_compute; reflexivity.
Defined.




(** ** Semantic-version ordering is a total preorder *)

Section OrderFacts.
Context {A : Type} (cmp : A → A → comparison) (O : Order cmp).

Lemma order_eq_r (x y z : A) : cmp y z = Eq → cmp x y = cmp x z.
Proof.
  intros Hyz.
  assert (Hzy : cmp z y = Eq) by (rewrite (order_antisym cmp O y z), Hyz; reflexivity).
  rewrite (order_antisym cmp O y x), (order_antisym cmp O z x).
  f_equal. symmetry. by apply (order_eq_l cmp O).
Qed.

Lemma order_gt_lt (x y : A) : cmp x y = Gt → cmp y x = Lt.
Proof. intros Hxy. rewrite (order_antisym cmp O x y), Hxy. reflexivity. Qed.

Lemma order_le_trans (x y z : A) : cmp x y ≠ Gt → cmp y z ≠ Gt → cmp x z ≠ Gt.
Proof.
  intros Hxy Hyz.
  destruct (cmp x y) eqn:Exy; [| |done].
  - by rewrite (order_eq_l cmp O x y z Exy).
  - destruct (cmp y z) eqn:Eyz; [| |done].
    + by rewrite <- (order_eq_r x y z Eyz), Exy.
    + by rewrite (order_lt_trans cmp O x y z Exy Eyz).
Qed.

(** The order read through a projection *)
Lemma order_proj {B : Type} (f : B → A) : Order (fun x y => cmp (f x) (f y)).
Proof.
  split; intros.
  - apply (order_refl cmp O).
  - apply (order_antisym cmp O).
  - by apply (order_eq_l cmp O).
  - by apply (order_lt_trans cmp O) with (f y).
Qed.

(** Lexicographic order on lists *)
Lemma order_lex : Order (semver.lex cmp).
Proof.
  split.
  - intros x. induction x as [|a x IH]; simpl; [done|].
    by rewrite (order_refl cmp O).
  - intros x. induction x as [|a x IH]; intros [|b y]; simpl; try done.
    rewrite (order_antisym cmp O a b), IH.
    by destruct (cmp a b).
  - intros x. induction x as [|a x IH]; intros [|b y] z; simpl; try done.
    destruct (cmp a b) eqn:Eab; simpl; try done.
    intros Hxy. destruct z as [|c z]; simpl; [done|].
    by rewrite (order_eq_l cmp O a b c Eab), (IH y z Hxy).
  - intros x. induction x as [|a x IH]; intros [|b y] [|c z]; simpl; try done.
    destruct (cmp a b) eqn:Eab; simpl; try done.
    + rewrite (order_eq_l cmp O a b c Eab).
      destruct (cmp b c); simpl; try done. by apply IH.
    + intros _. destruct (cmp b c) eqn:Ebc; simpl; try done.
      * by rewrite <- (order_eq_r a b c Ebc), Eab.
      * by rewrite (order_lt_trans cmp O a b c Eab Ebc).
Qed.

End OrderFacts.

(** [or_else] of two orders, the second one breaking the ties of the first *)
Lemma order_or_else {A : Type} (c1 c2 : A → A → comparison) :
  Order c1 → Order c2 → Order (fun x y => semver.or_else (c1 x y) (c2 x y)).
Proof.
  intros O1 O2. split.
  - intros x. by rewrite (order_refl c1 O1), (order_refl c2 O2).
  - intros x y. rewrite (order_antisym c1 O1 x y), (order_antisym c2 O2 x y).
    by destruct (c1 x y).
  - intros x y z. destruct (c1 x y) eqn:E1; simpl; try done.
    intros E2. by rewrite (order_eq_l c1 O1 x y z E1), (order_eq_l c2 O2 x y z E2).
  - intros x y z. destruct (c1 x y) eqn:E1; simpl; try done.
    + rewrite (order_eq_l c1 O1 x y z E1).
      destruct (c1 y z); simpl; try done. apply (order_lt_trans c2 O2).
    + intros _. destruct (c1 y z) eqn:E2; simpl; try done.
      * by rewrite <- (order_eq_r c1 O1 x y z E2), E1.
      * by rewrite (order_lt_trans c1 O1 x y z E1 E2).
Qed.

Lemma order_N : Order N.compare.
Proof.
  split.
  - apply N.compare_refl.
  - intros x y. apply N.compare_antisym.
  - intros x y z Hxy. apply N.compare_eq in Hxy. by subst.
  - intros x y z. rewrite !N.compare_lt_iff. lia.
Qed.

Lemma order_strings : Order semver.compareStrings.
Proof.
  unfold semver.compareStrings.
  apply (order_proj (semver.lex Ascii.compare)).
  apply order_lex. apply (order_proj N.compare order_N N_of_ascii).
Qed.

Lemma order_identifiers : Order precedence.compareIdentifiers.
Proof.
  pose proof (order_proj _ order_strings semver.Identifier_to_string) as OS.
  unfold precedence.compareIdentifiers. split.
  - intros x. destruct (precedence.number x);
      [apply N.compare_refl | apply (order_refl _ OS)].
  - intros x y. destruct (precedence.number x), (precedence.number y); try done;
      [apply N.compare_antisym | apply (order_antisym _ OS)].
  - intros x y z.
    destruct (precedence.number x), (precedence.number y), (precedence.number z);
      try done; [apply (order_eq_l _ order_N) | apply (order_eq_l _ OS)].
  - intros x y z.
    destruct (precedence.number x), (precedence.number y), (precedence.number z);
      try done; [apply (order_lt_trans _ order_N) | apply (order_lt_trans _ OS)].
Qed.

Lemma order_prerelease : Order precedence.compare_prerelease.
Proof.
  pose proof (order_lex _ order_identifiers) as OL.
  split.
  - intros [|a x]; [done|]. apply (order_refl _ OL).
  - intros [|a x] [|b y]; try done. apply (order_antisym _ OL).
  - intros [|a x] [|b y] [|c z]; try done. apply (order_eq_l _ OL).
  - intros [|a x] [|b y] [|c z]; try done. apply (order_lt_trans _ OL).
Qed.

Lemma order_SemVer : Order precedence.SemVer_compare.
Proof.
  unfold precedence.SemVer_compare, semver.compareMain.
  apply (order_or_else
           (fun a b => semver.or_else (N.compare (semver.major a) (semver.major b))
                         (semver.or_else (N.compare (semver.minor a) (semver.minor b))
                            (N.compare (semver.patch a) (semver.patch b))))
           (fun a b => precedence.compare_prerelease
                         (semver.prerelease a) (semver.prerelease b))).
  - apply (order_or_else (fun a b => N.compare (semver.major a) (semver.major b))
             (fun a b => semver.or_else (N.compare (semver.minor a) (semver.minor b))
                           (N.compare (semver.patch a) (semver.patch b)))).
    + apply (order_proj _ order_N).
    + apply (order_or_else (fun a b => N.compare (semver.minor a) (semver.minor b))
               (fun a b => N.compare (semver.patch a) (semver.patch b)));
        apply (order_proj _ order_N).
  - apply (order_proj precedence.compare_prerelease order_prerelease semver.prerelease).
Qed.

(** ** [gt] on version strings *)

Lemma gt_Ok_inv (a b : string) (g : bool) :
  precedence.gt a b = Ok g →
  ∃ va vb, semver.SemVer_new a = Ok va ∧ semver.SemVer_new b = Ok vb ∧
           g = semver.is_Gt (precedence.SemVer_compare va vb).
Proof.
  unfold precedence.gt, mbind, Result_bind.
  destruct (semver.SemVer_new a) as [va|]; [|discriminate].
  destruct (semver.SemVer_new b) as [vb|]; [|discriminate].
  intros [= <-]. by exists va, vb.
Qed.

Lemma gt_of_new (a b : string) (va vb : semver.SemVer) :
  semver.SemVer_new a = Ok va → semver.SemVer_new b = Ok vb →
  precedence.gt a b = Ok (semver.is_Gt (precedence.SemVer_compare va vb)).
Proof.
  intros Ha Hb.
  unfold precedence.gt, mbind, Result_bind.
  by rewrite Ha, Hb.
Qed.

Lemma gt_refl (a b : string) (g : bool) :
  precedence.gt a b = Ok g → precedence.gt a a = Ok false ∧ precedence.gt b b = Ok false.
Proof.
  intros (va & vb & Ha & Hb & _)%gt_Ok_inv.
  rewrite (gt_of_new a a va va Ha Ha), (gt_of_new b b vb vb Hb Hb).
  by rewrite !(order_refl _ order_SemVer).
Qed.

Lemma gt_true_le (a b : string) :
  precedence.gt a b = Ok true → precedence.gt b a = Ok false.
Proof.
  intros (va & vb & Ha & Hb & Hg)%gt_Ok_inv.
  rewrite (gt_of_new b a vb va Hb Ha).
  destruct (precedence.SemVer_compare va vb) eqn:E; try discriminate.
  by rewrite (order_gt_lt _ order_SemVer va vb E).
Qed.

Lemma le_trans (a b c : string) :
  precedence.gt a b = Ok false → precedence.gt b c = Ok false → precedence.gt a c = Ok false.
Proof.
  intros (va & vb & Ha & Hb & Hab)%gt_Ok_inv (vb' & vc & Hb' & Hc & Hbc)%gt_Ok_inv.
  rewrite Hb in Hb'. injection Hb' as <-.
  rewrite (gt_of_new a c va vc Ha Hc). f_equal.
  pose proof (order_le_trans _ order_SemVer va vb vc) as Ht.
  destruct (precedence.SemVer_compare va vc); try done.
  exfalso. apply Ht; [| |done].
  - by destruct (precedence.SemVer_compare va vb).
  - by destruct (precedence.SemVer_compare vb vc).
Qed.

(** ** The merge of the candidates *)

Lemma merge_fold (w : Workspace) (records : list VersionFile) :
  ∀ best r,
    versionUtils.merge w records best = Ok r →
    ∃ candidates,
      Forall2 (fun s c => versionUtils.applyStrategy w.(manifest).(version) s = Ok c)
        (declared w records) candidates ∧
      fold_max candidates best = Ok r.
Proof.
  unfold declared.
  induction records as [|record records IH]; intros best r; simpl.
  - intros Hr. exists []. by split; [constructor|].
  - destruct (releases record !! ident w) as [s|]; [|apply IH].
    unfold mbind, Result_bind.
    destruct (versionUtils.applyStrategy _ s) as [c|] eqn:Hc; [|discriminate].
    destruct (versionUtils.keep_max best c) as [b|] eqn:Hb; [|discriminate].
    intros (cs & Hcs & Hfold)%IH.
    exists (c :: cs). split; [by constructor|].
    simpl. unfold mbind, Result_bind. by rewrite Hb.
Qed.

Lemma fold_max_inv (candidates : list string) :
  ∀ (b : string) (r : option string) (seen : list string),
    precedence.gt b b = Ok false →
    (∀ x, x ∈ seen → precedence.gt x b = Ok false) →
    b ∈ seen →
    fold_max candidates (Some b) = Ok r →
    ∃ best, r = Some best ∧ best ∈ (seen ++ candidates)%list ∧
            ∀ x, x ∈ (seen ++ candidates)%list → precedence.gt x best = Ok false.
Proof.
  induction candidates as [|c cs IH]; intros b r seen Hbb Hseen Hb; simpl.
  - intros [= <-]. exists b. rewrite app_nil_r. auto.
  - unfold mbind, Result_bind.
    destruct (precedence.gt c b) as [g|] eqn:Hg; [|discriminate]. simpl.
    destruct (gt_refl _ _ _ Hg) as [Hcc _].
    intros Hfold.
    destruct (IH (if g then c else b) r (seen ++ [c])%list) as (best & -> & Hin & Hmax).
    + by destruct g.
    + intros x [Hx | ->%list_elem_of_singleton]%elem_of_app.
      * destruct g; [|by apply Hseen].
        apply le_trans with b; [by apply Hseen | by apply gt_true_le].
      * by destruct g.
    + destruct g; set_solver.
    + exact Hfold.
    + exists best. rewrite <- app_assoc in Hin, Hmax. auto.
Qed.

(** With two candidates or more, the merge keeps one of them that none of
    them exceeds. *)
Lemma fold_max_maximum (candidates : list string) (r : option string) :
  (1 < length candidates)%nat →
  fold_max candidates None = Ok r →
  ∃ best, r = Some best ∧ best ∈ candidates ∧
          ∀ x, x ∈ candidates → precedence.gt x best = Ok false.
Proof.
  destruct candidates as [|c1 [|c2 cs]]; simpl; try lia.
  intros _ Hfold.
  assert (Hc1 : precedence.gt c1 c1 = Ok false).
  { revert Hfold. unfold mbind, Result_bind.
    destruct (precedence.gt c2 c1) as [g|] eqn:Hg; [|discriminate].
    intros _. by destruct (gt_refl _ _ _ Hg). }
  apply (fold_max_inv (c2 :: cs) c1 r [c1] Hc1).
  - by intros x ->%list_elem_of_singleton.
  - set_solver.
  - exact Hfold.
Qed.

(** ** The ledger, workspace by workspace *)

Lemma merge_all_lookup_None (ws : list Workspace) (records : list VersionFile)
    (ledger : gmap string string) (p : string) :
  p ∉ ident <$> ws →
  versionUtils.merge_all ws records = Ok ledger →
  ledger !! p = None.
Proof.
  revert ledger. induction ws as [|w ws IH]; intros ledger Hp; simpl.
  - by intros [= <-].
  - unfold mbind, Result_bind.
    destruct (versionUtils.merge w records None) as [best|]; [|discriminate].
    destruct (versionUtils.merge_all ws records) as [rest|]; [|discriminate].
    intros [= <-].
    rewrite fmap_cons, not_elem_of_cons in Hp. destruct Hp as [Hne Hp].
    destruct best as [v|]; [rewrite lookup_insert_ne by done|]; by apply IH.
Qed.

Lemma merge_all_lookup (ws : list Workspace) (records : list VersionFile)
    (ledger : gmap string string) (w : Workspace) :
  NoDup (ident <$> ws) →
  w ∈ ws →
  versionUtils.merge_all ws records = Ok ledger →
  versionUtils.merge w records None = Ok (ledger !! w.(ident)).
Proof.
  revert ledger. induction ws as [|w' ws IH]; intros ledger Hnd Hw; simpl.
  - by apply elem_of_nil in Hw.
  - rewrite fmap_cons in Hnd. apply NoDup_cons in Hnd as [Hfresh Hnd].
    unfold mbind, Result_bind.
    destruct (versionUtils.merge w' records None) as [best|] eqn:Hbest; [|discriminate].
    destruct (versionUtils.merge_all ws records) as [rest|] eqn:Hrest; [|discriminate].
    intros [= <-].
    apply elem_of_cons in Hw as [-> | Hw].
    + rewrite Hbest. f_equal.
      destruct best as [v|]; [by rewrite lookup_insert_eq|].
      symmetry. by apply merge_all_lookup_None with ws records.
    + assert (ident w ≠ ident w').
      { intros Heq. apply Hfresh. rewrite <- Heq. by apply list_elem_of_fmap_2. }
      rewrite (IH rest Hnd Hw eq_refl).
      destruct best as [v|]; [by rewrite lookup_insert_ne|done].
Qed.

(** ** When the resolver returns a ledger *)

Lemma merge_succeeds (w : Workspace) (records : list VersionFile) :
  (∀ s, s ∈ declared w records →
     ∃ c v, versionUtils.applyStrategy w.(manifest).(version) s = Ok c ∧
            semver.SemVer_new c = Ok v) →
  ∀ best,
    (∀ b, best = Some b → ∃ v, semver.SemVer_new b = Ok v) →
    ∃ r, versionUtils.merge w records best = Ok r.
Proof.
  unfold declared.
  induction records as [|record records IH]; simpl; intros Hall best Hbest.
  - by exists best.
  - destruct (releases record !! ident w) as [s|]; [|by apply IH].
    destruct (Hall s) as (c & v & Hc & Hv); [apply list_elem_of_here|].
    unfold mbind, Result_bind. rewrite Hc.
    assert (∃ b', versionUtils.keep_max best c = Ok b' ∧ ∃ v', semver.SemVer_new b' = Ok v')
      as (b' & -> & Hb').
    { destruct best as [b|]; simpl; [|by eauto].
      destruct (Hbest b eq_refl) as [vb Hvb].
      unfold mbind, Result_bind. rewrite (gt_of_new c b v vb Hv Hvb).
      destruct (semver.is_Gt _); eauto. }
    apply IH.
    + intros s' Hs'. apply Hall. by apply list_elem_of_further.
    + by intros b [= <-].
Qed.

Lemma merge_all_succeeds (ws : list Workspace) (records : list VersionFile) :
  (∀ w s, w ∈ ws → s ∈ declared w records →
     ∃ c v, versionUtils.applyStrategy w.(manifest).(version) s = Ok c ∧
            semver.SemVer_new c = Ok v) →
  ∃ ledger, versionUtils.merge_all ws records = Ok ledger.
Proof.
  induction ws as [|w ws IH]; simpl; intros Hall.
  - by eexists.
  - destruct (merge_succeeds w records) with (best := @None string) as [best ->].
    + intros s Hs. apply (Hall w s); [set_solver|done].
    + discriminate.
    + destruct IH as [ledger ->].
      * intros w' s Hw' Hs. apply (Hall w' s); [set_solver|done].
      * simpl. by eexists.
Qed.

(** C2: the resolver returns a ledger whenever every record decodes and
    every declared strategy yields a version; in a project whose workspace
    identifiers are unique, for a workspace that more than one record
    declares, the ledger holds one of the candidates, and no candidate is
    greater under semantic-version ordering; records declaring [minor] and
    [patch] at 1.0.0 merge to 1.1.0, whichever is discovered first. *)
Theorem resolveVersionFiles_keeps_maximum :
  (∀ (project : Project) (st : Storage) (recs : list VersionFile),
     versionUtils.decode_all st.(records) = Ok recs →
     (∀ w s, w ∈ project.(workspaces) → s ∈ declared w recs →
        ∃ c v, versionUtils.applyStrategy w.(manifest).(version) s = Ok c ∧
               semver.SemVer_new c = Ok v) →
     ∃ ledger, versionUtils.resolveVersionFiles project st = Ok ledger)
  ∧ (∀ (project : Project) (st : Storage) (ledger : gmap string string) (w : Workspace),
       NoDup (ident <$> project.(workspaces)) →
       w ∈ project.(workspaces) →
       versionUtils.resolveVersionFiles project st = Ok ledger →
       ∃ recs candidates,
         versionUtils.decode_all st.(records) = Ok recs ∧
         Forall2 (fun s c => versionUtils.applyStrategy w.(manifest).(version) s = Ok c)
           (declared w recs) candidates ∧
         ((1 < length candidates)%nat →
          ∃ best, ledger !! w.(ident) = Some best ∧ best ∈ candidates ∧
                  ∀ c, c ∈ candidates → precedence.gt c best = Ok false))
  ∧ (versionUtils.resolveVersionFiles
       (Fixtures.project_of (Fixtures.workspace_at (Some "1.0.0")))
       {| records := [Fixtures.record_of "change-1" "minor";
                      Fixtures.record_of "change-2" "patch"];
          writable := true |}
       ≫= fun ledger => Ok (ledger !! "pkg")) = Ok (Some "1.1.0")
  ∧ (versionUtils.resolveVersionFiles
       (Fixtures.project_of (Fixtures.workspace_at (Some "1.0.0")))
       {| records := [Fixtures.record_of "change-1" "patch";
                      Fixtures.record_of "change-2" "minor"];
          writable := true |}
       ≫= fun ledger => Ok (ledger !! "pkg")) = Ok (Some "1.1.0").
Proof.
  split; [|split; [|split; vm_compute; reflexivity]].
  - intros project st recs Hdec Hall.
    unfold versionUtils.resolveVersionFiles, mbind, Result_bind. rewrite Hdec.
    by apply merge_all_succeeds.
  - intros project st ledger w Hnd Hw.
    unfold versionUtils.resolveVersionFiles, mbind, Result_bind.
    destruct (versionUtils.decode_all (records st)) as [recs|] eqn:Hdec; [|discriminate].
    intros Hall.
    pose proof (merge_all_lookup _ _ _ _ Hnd Hw Hall) as Hmerge.
    destruct (merge_fold _ _ _ _ Hmerge) as (candidates & Hcs & Hfold).
    exists recs, candidates. split; [done|]. split; [done|].
    intros Hlen.
    destruct (fold_max_maximum _ _ Hlen Hfold) as (best & Hbest & Hin & Hmax).
    by exists best.
Qed.

Lemma resolveVersionFiles_keeps_maximum_witness :
  ∃ recs candidates,
    versionUtils.decode_all
      [Fixtures.record_of "change-1" "patch"; Fixtures.record_of "change-2" "minor"]
    = Ok recs ∧
    Forall2 (fun s c => versionUtils.applyStrategy (Some "1.0.0") s = Ok c)
      (declared (Fixtures.workspace_at (Some "1.0.0")) recs) candidates ∧
    ((1 < length candidates)%nat →
     ∃ best, ({[ "pkg" := "1.1.0" ]} : gmap string string) !! "pkg" = Some best ∧
             best ∈ candidates ∧
             ∀ c, c ∈ candidates → precedence.gt c best = Ok false).
Proof.
  apply (proj1 (proj2 resolveVersionFiles_keeps_maximum)
           (Fixtures.project_of (Fixtures.workspace_at (Some "1.0.0")))
           {| records := [Fixtures.record_of "change-1" "patch";
                          Fixtures.record_of "change-2" "minor"];
              writable := true |}
           {[ "pkg" := "1.1.0" ]}
           (Fixtures.workspace_at (Some "1.0.0"))).
  - simpl. apply NoDup_singleton.
  - simpl. apply list_elem_of_singleton. reflexivity.
  - vm_compute. reflexivity.
Defined.

(** ** The strategy schema, settled *)

(** C6 (amended): the schema accepts a string if and only if it is one of
    the eight strategy tokens or a valid semantic version; the sentinel
    [undecided] is rejected. *)
Theorem schema_accepts_tokens_and_versions (range : string) :
  (schema_strategy_test range = true ↔ range ∈ tokens ∨ semver.valid range ≠ None)
  ∧ schema_strategy_test Decision.UNDECIDED = false.
Proof.
  split; [|reflexivity].
  unfold schema_strategy_test.
  rewrite orb_true_iff, !bool_decide_eq_true, elem_of_acceptedStrategies.
  tauto.
Qed.

(** C6 as stated fails on a range that is not a version: the caret range
    [^1.0.0] is no token, is a range, and is rejected. *)
Lemma caret_range_rejected :
  ("^1.0.0" ∉ tokens) ∧
  semver.comparator "^1.0.0" = true ∧
  schema_strategy_test "^1.0.0" = false.
Proof.
  split; [|split; reflexivity].
  unfold tokens. rewrite !not_elem_of_cons. repeat split; try discriminate.
  apply not_elem_of_nil.
Qed.

(** * Further properties of [execute] *)

(** ** The run as a value *)

Section ExecuteRun.
Context `{VersionUtils} `{Cli}.

Lemma guard_result_Ok (project : Project) (ws : Workspace) (rs : string) (st : Storage) :
  guard_result project ws rs st = Ok tt ↔ guard_passed project ws rs st.
Proof.
  unfold guard_result, guard_passed, mbind, Result_bind. split.
  - destruct (resolveVersionFiles project st) as [ledger|]; [|discriminate].
    intros Hg. exists ledger. split; [done|].
    destruct (ledger !! ident ws) as [stored|]; [|done].
    destruct (applyStrategy _ _) as [thisVersion|]; [|discriminate].
    destruct (semver.lt _ _) as [[]|] eqn:Hlt; try discriminate.
    by exists thisVersion.
  - intros (ledger & -> & Hl).
    destruct (ledger !! ident ws) as [stored|]; [|done].
    destruct Hl as (thisVersion & -> & ->). done.
Qed.

(** Every run past the strategy resolution, stage by stage. *)
Lemma execute_run (this : VersionCommand) (context : Context) (ws : Workspace) (rs : string)
    (w : World) :
  context.(workspace) = Some ws →
  execute_releaseStrategy this ws = Ok rs →
  let d := execute_deferred context.(configuration) this in
  let pre := if d then [] else [ResolveVersionFiles] in
  let after (events : list Event) :=
    {| storage := w.(storage); trace := w.(trace) ++ events |} in
  execute this context w =
    match (if d then Ok tt else guard_result context.(project) ws rs w.(storage)) with
    | Throw e => (Throw e, after pre)
    | Ok _ =>
        match openVersionFile context.(project) true w.(storage) with
        | Throw e => (Throw e, after (pre ++ [OpenVersionFile])%list)
        | Ok file =>
            match saveAll (decided file ws rs) w.(storage) with
            | Throw e =>
                (Throw e,
                 after (pre ++ [OpenVersionFile; ReleasesSet ws.(ident) rs; SaveAll])%list)
            | Ok st =>
                (Ok tt, {| storage := if d then st else run ["version"; "apply"] st;
                           trace := w.(trace) ++ events_of d ws rs |})
            end
        end
    end.
Proof.
  intros Hws Hrs d pre after. subst pre after.
  run_execute. unfold guard_result, events_of, decided, mbind, Result_bind.
  rewrite Hws, Hrs. fold d. destruct d; simpl.
  - destruct (openVersionFile _ _ _) as [file|]; [|done]. simpl.
    destruct (saveAll _ _) as [st|]; simpl; by rewrite <- !app_assoc.
  - destruct (resolveVersionFiles _ _) as [ledger|]; [|done].
    destruct (ledger !! ident ws) as [stored|].
    + destruct (applyStrategy _ _) as [thisVersion|]; [|done].
      destruct (semver.lt _ _) as [[]|]; try done. simpl.
      destruct (openVersionFile _ _ _) as [file|]; [|by rewrite <- !app_assoc]. simpl.
      destruct (saveAll _ _) as [st|]; simpl; by rewrite <- !app_assoc.
    + simpl.
      destruct (openVersionFile _ _ _) as [file|]; [|by rewrite <- !app_assoc]. simpl.
      destruct (saveAll _ _) as [st|]; simpl; by rewrite <- !app_assoc.
Qed.

Lemma execute_no_workspace (this : VersionCommand) (context : Context) (w : World) :
  context.(workspace) = None →
  execute this context w =
    (Throw (WorkspaceRequiredError context.(project).(cwd) context.(context_cwd)), w).
Proof. intros Hws. run_execute. by rewrite Hws. Qed.

End ExecuteRun.

Lemma world_after_inv (w : World) (st : Storage) (events : list Event) :
  {| storage := st; trace := w.(trace) ++ events |} = w → events = [].
Proof.
  intros Heq. apply (f_equal trace) in Heq. simpl in Heq.
  apply (f_equal length) in Heq. rewrite length_app in Heq.
  destruct events; [done|simpl in Heq; lia].
Qed.

(** ** Failures of the strategy resolution *)

(** X2: the strategy resolution throws exactly when the strategy is neither
    valid semver nor [decline] and the current version is absent or not
    valid semver; the error is the usage error of that case. *)
Theorem releaseStrategy_throws_iff `{VersionUtils}
    (this : VersionCommand) (ws : Workspace) (e : Error) :
  execute_releaseStrategy this ws = Throw e ↔
    semver.valid this.(strategy) = None ∧
    this.(strategy) ≠ Decision.DECLINE ∧
    ((ws.(manifest).(version) = None ∧ e = UsageError no_version_message)
     ∨ ∃ current, ws.(manifest).(version) = Some current ∧
                  semver.valid current = None ∧
                  e = UsageError (invalid_version_message current)).
Proof.
  unfold execute_releaseStrategy. rewrite truthy_valid.
  destruct (semver.valid (strategy this)) as [v|] eqn:Hv; simpl.
  - split; [|by intros [? _]].
    destruct (version (manifest ws)) as [current|]; [|discriminate].
    by destruct (suggestStrategy current (strategy this)).
  - destruct (String.eqb_spec (strategy this) Decision.DECLINE) as [Hd|Hd]; simpl.
    + split; [discriminate|]. by intros (_ & Hne & _).
    + destruct (version (manifest ws)) as [current|]; simpl.
      * rewrite truthy_valid.
        destruct (semver.valid current) as [c|] eqn:Hc; simpl.
        -- split; [discriminate|].
           intros (_ & _ & [[? _] | (current' & [= <-] & Hc' & _)]); [done|].
           by rewrite Hc in Hc'.
        -- split.
           ++ intros [= <-]. repeat split; try done. right. by exists current.
           ++ by intros (_ & _ & [[? _] | (current' & [= <-] & _ & ->)]).
      * split.
        -- intros [= <-]. repeat split; try done. by left.
        -- by intros (_ & _ & [[_ ->] | (current' & ? & _)]).
Qed.

(** X3: an enumerated token against a current version that is valid semver
    resolves to the token itself, whatever [suggestStrategy] is. *)
Theorem token_resolves_to_itself `{VersionUtils}
    (this : VersionCommand) (ws : Workspace) (current : string) :
  this.(strategy) ∈ acceptedStrategies →
  ws.(manifest).(version) = Some current →
  semver.valid current ≠ None →
  execute_releaseStrategy this ws = Ok this.(strategy).
Proof.
  intros Hs Hv Hc. unfold execute_releaseStrategy.
  rewrite (truthy_valid_None _ (token_not_semver _ Hs)), Hv.
  destruct (negb _); simpl; [|done].
  by rewrite (truthy_valid_Some _ Hc).
Qed.

Lemma token_resolves_to_itself_witness :
  execute_releaseStrategy (Fixtures.command "prerelease" None None)
    (Fixtures.workspace_at (Some "1.0.0-rc.1")) = Ok "prerelease".
Proof.
  apply (token_resolves_to_itself (Fixtures.command "prerelease" None None)
           (Fixtures.workspace_at (Some "1.0.0-rc.1")) "1.0.0-rc.1").
  - apply elem_of_acceptedStrategies. repeat constructor.
  - reflexivity.
  - vm_compute. discriminate.
Defined.

(** X11: on the strings that the schema accepts, the truthiness test of
    [execute] on [semver.valid] holds exactly for those that are no token:
    the two alternatives of the schema never overlap, and [execute] and the
    schema agree on which strings are versions. *)
Theorem schema_accepted_semver_branch (s : string) :
  schema_strategy_test s = true →
  (truthy (semver.valid s) = true ↔ s ∉ acceptedStrategies).
Proof.
  unfold schema_strategy_test.
  rewrite orb_true_iff, !bool_decide_eq_true, truthy_valid, bool_decide_eq_true.
  intros [Hv | Hs]; split; try done.
  - intros _ Hs. by rewrite (token_not_semver _ Hs) in Hv.
  - intros Hv. by rewrite (token_not_semver _ Hs) in Hv.
Qed.

Lemma schema_accepted_semver_branch_witness :
  truthy (semver.valid "1.2.3-rc.1") = true ↔ "1.2.3-rc.1" ∉ acceptedStrategies.
Proof.
  apply (schema_accepted_semver_branch "1.2.3-rc.1"). vm_compute. reflexivity.
Defined.

(** ** Failures before any call *)

(** Past the two awaits, the command fails with nothing called and nothing
    changed exactly when the directory belongs to no workspace or the
    strategy resolution throws. *)
Lemma execute_body_untouched_iff `{VersionUtils} `{Cli}
    (this : VersionCommand) (context : Context) (w : World) (e : Error) :
  execute this context w = (Throw e, w) ↔
    (context.(workspace) = None ∧
     e = WorkspaceRequiredError context.(project).(cwd) context.(context_cwd))
    ∨ ∃ ws, context.(workspace) = Some ws ∧ execute_releaseStrategy this ws = Throw e.
Proof.
  destruct (workspace context) as [ws|] eqn:Hws.
  - destruct (execute_releaseStrategy this ws) as [rs|e'] eqn:Hrs.
    + rewrite (execute_run _ _ _ _ _ Hws Hrs). split.
      * intros Hrun. exfalso. revert Hrun.
        destruct (execute_deferred _ _); simpl.
        -- destruct (openVersionFile _ _ _); [|by intros [= _ ?%world_after_inv]].
           destruct (saveAll _ _); [done|by intros [= _ ?%world_after_inv]].
        -- destruct (guard_result _ _ _ _); [|by intros [= _ ?%world_after_inv]].
           destruct (openVersionFile _ _ _); [|by intros [= _ ?%world_after_inv]].
           destruct (saveAll _ _); [done|by intros [= _ ?%world_after_inv]].
      * intros [[? _] | (ws' & [= <-] & ?)]; [done|]. congruence.
    + rewrite (execute_releaseStrategy_throws _ _ _ _ _ Hws Hrs). split.
      * intros [= <-]. right. by exists ws.
      * intros [[? _] | (ws' & [= <-] & ?)]; [done|]. congruence.
  - rewrite (execute_no_workspace _ _ _ Hws). split.
    + intros [= <-]. by left.
    + by intros [[_ ->] | (ws' & ? & _)].
Qed.

(** X1: the command fails with none of [versionUtils] or [cli.run] called
    and nothing changed exactly when [Configuration.find] rejects,
    [Project.find] rejects, the directory belongs to no workspace, or the
    strategy resolution throws; the error is the one of that case, and
    every other failure comes after a call. *)
Theorem execute_fails_untouched_iff `{Core} `{VersionUtils} `{Cli}
    (this : VersionCommand) (dir : string) (w : World) (e : Error) :
  VersionCommand_execute this dir w = (Throw e, w) ↔
    Configuration_find dir = Throw e
    ∨ ∃ configuration,
        Configuration_find dir = Ok configuration ∧
        (Project_find configuration dir = Throw e
         ∨ (∃ project,
              Project_find configuration dir = Ok (project, None) ∧
              e = WorkspaceRequiredError project.(cwd) dir)
         ∨ ∃ project ws,
              Project_find configuration dir = Ok (project, Some ws) ∧
              execute_releaseStrategy this ws = Throw e).
Proof.
  unfold VersionCommand_execute, mbind, M_bind, lift.
  destruct (Configuration_find dir) as [configuration|e1].
  - destruct (Project_find configuration dir) as [[project [ws|]]|e2] eqn:Hp.
    + rewrite execute_body_untouched_iff. simpl. split.
      * intros [[? _] | (ws' & [= <-] & Hrs)]; [done|].
        right. exists configuration. split; [done|]. right. right. by exists project, ws.
      * intros [? | (c & [= <-] & Hcases)]; [done|]. rewrite Hp in Hcases.
        destruct Hcases as [? | [(p & ? & _) | (p & ws' & [= <- <-] & Hrs)]]; try done.
        right. by exists ws.
    + rewrite execute_body_untouched_iff. simpl. split.
      * intros [[_ ->] | (ws' & ? & _)]; [|done].
        right. exists configuration. split; [done|]. right. left. by exists project.
      * intros [? | (c & [= <-] & Hcases)]; [done|]. rewrite Hp in Hcases.
        destruct Hcases as [? | [(p & [= <-] & ->) | (p & ws' & ? & _)]]; try done.
        by left.
    + split.
      * intros [= <-]. right. exists configuration. split; [done|]. by left.
      * intros [? | (c & [= <-] & Hcases)]; [done|]. rewrite Hp in Hcases.
        by destruct Hcases as [[= <-] | [(p & ? & _) | (p & ws' & ? & _)]].
  - split.
    + intros [= <-]. by left.
    + by intros [[= <-] | (c & ? & _)].
Qed.

(** Once the two awaits have resolved, the command is its body on what
    they resolved to. *)
Lemma VersionCommand_execute_resolved `{Core} `{VersionUtils} `{Cli}
    (this : VersionCommand) (dir : string) (configuration : Configuration)
    (project : Project) (ws : option Workspace) (w : World) :
  Configuration_find dir = Ok configuration →
  Project_find configuration dir = Ok (project, ws) →
  VersionCommand_execute this dir w =
    execute this {| context_cwd := dir; configuration := configuration;
                    project := project; workspace := ws |} w.
Proof.
  intros Hc Hp. unfold VersionCommand_execute, mbind, M_bind, lift.
  by rewrite Hc, Hp.
Qed.

(** ** What a run depends on *)

Lemma releaseStrategy_strategy_only `{VersionUtils} (this this' : VersionCommand) (ws : Workspace) :
  this.(strategy) = this'.(strategy) →
  execute_releaseStrategy this ws = execute_releaseStrategy this' ws.
Proof. intros Hs. unfold execute_releaseStrategy. by rewrite Hs. Qed.

(** X4: the command line and the configuration act on a run only through
    the strategy and the resolved [deferred] flag: [--force] is never read,
    and [--deferred] does what the [preferDeferredVersions] setting does. *)
Theorem execute_depends_on_resolved_flag `{VersionUtils} `{Cli}
    (this this' : VersionCommand) (context context' : Context) (w : World) :
  this.(strategy) = this'.(strategy) →
  execute_deferred context.(configuration) this
    = execute_deferred context'.(configuration) this' →
  context.(project) = context'.(project) →
  context.(workspace) = context'.(workspace) →
  context.(context_cwd) = context'.(context_cwd) →
  execute this context w = execute this' context' w.
Proof.
  intros Hs Hd Hp Hws Hcwd. run_execute.
  rewrite <- Hws, <- Hp, <- Hcwd, <- Hd.
  destruct (workspace context) as [ws|]; [|done].
  by rewrite (releaseStrategy_strategy_only this this' ws Hs).
Qed.

Lemma execute_depends_on_resolved_flag_witness :
  execute {| strategy := "minor"; deferred := Some true; immediate := None; force := false |}
    (Fixtures.context_of false (Fixtures.workspace_at (Some "1.0.0"))) (Fixtures.world_of [])
  = execute {| strategy := "minor"; deferred := None; immediate := Some false; force := true |}
      (Fixtures.context_of true (Fixtures.workspace_at (Some "1.0.0"))) (Fixtures.world_of []).
Proof.
  apply (execute_depends_on_resolved_flag
           {| strategy := "minor"; deferred := Some true; immediate := None; force := false |}
           {| strategy := "minor"; deferred := None; immediate := Some false; force := true |}
           (Fixtures.context_of false (Fixtures.workspace_at (Some "1.0.0")))
           (Fixtures.context_of true (Fixtures.workspace_at (Some "1.0.0"))));
    reflexivity.
Defined.

(** ** Success and failure *)

(** X5: the command succeeds exactly when the directory belongs to a
    workspace, the strategy resolves, the regression guard of an immediate
    run lets the decision through, the record opens and the save returns;
    the final storage is then the saved one, passed through the apply
    command in an immediate run, and the calls are those of [events_of]. *)
Theorem execute_succeeds_iff `{VersionUtils} `{Cli}
    (this : VersionCommand) (context : Context) (w w' : World) :
  execute this context w = (Ok tt, w') ↔
    ∃ ws rs file st,
      context.(workspace) = Some ws ∧
      execute_releaseStrategy this ws = Ok rs ∧
      (execute_deferred context.(configuration) this = false →
       guard_passed context.(project) ws rs w.(storage)) ∧
      openVersionFile context.(project) true w.(storage) = Ok file ∧
      saveAll (decided file ws rs) w.(storage) = Ok st ∧
      w' = {| storage := if execute_deferred context.(configuration) this
                         then st else run ["version"; "apply"] st;
              trace := w.(trace)
                       ++ events_of (execute_deferred context.(configuration) this) ws rs |}.
Proof.
  split.
  - intros Hrun.
    destruct (execute_Ok_inv _ _ _ _ Hrun)
      as (ws & rs & file & st & Hws & Hrs & Hopen & Hsave & Hw' & Hguard).
    by exists ws, rs, file, st.
  - intros (ws & rs & file & st & Hws & Hrs & Hguard & Hopen & Hsave & ->).
    rewrite (execute_run _ _ _ _ _ Hws Hrs), Hopen, Hsave.
    destruct (execute_deferred _ _); [done|].
    by rewrite (proj2 (guard_result_Ok _ _ _ _) (Hguard eq_refl)).
Qed.

(** X6: a run that fails leaves the storage as it was and has not run the
    apply command, whatever the failure. *)
Theorem execute_failure_leaves_storage `{VersionUtils} `{Cli}
    (this : VersionCommand) (context : Context) (w w' : World) (e : Error) :
  execute this context w = (Throw e, w') →
  w'.(storage) = w.(storage) ∧
  ∃ events : list Event,
    w'.(trace) = (w.(trace) ++ events)%list ∧ ∀ argv, CliRun argv ∉ events.
Proof.
  assert (Hpre : ∀ d : bool, ∀ argv, CliRun argv ∉ (if d then [] else [ResolveVersionFiles])).
  { intros [] argv; [apply not_elem_of_nil|].
    rewrite list_elem_of_singleton. discriminate. }
  assert (Hopen : ∀ d : bool, ∀ argv,
            CliRun argv ∉ ((if d then [] else [ResolveVersionFiles]) ++ [OpenVersionFile])%list).
  { intros [] argv; simpl; rewrite ?not_elem_of_cons; repeat split; try discriminate;
      apply not_elem_of_nil. }
  assert (Hsave : ∀ (d : bool) i s argv,
            CliRun argv ∉ ((if d then [] else [ResolveVersionFiles])
                           ++ [OpenVersionFile; ReleasesSet i s; SaveAll])%list).
  { intros [] i s argv; simpl; rewrite ?not_elem_of_cons; repeat split; try discriminate;
      apply not_elem_of_nil. }
  destruct (workspace context) as [ws|] eqn:Hws.
  - destruct (execute_releaseStrategy this ws) as [rs|e'] eqn:Hrs.
    + rewrite (execute_run _ _ _ _ _ Hws Hrs).
      destruct (if execute_deferred _ _ then _ else _).
      * destruct (openVersionFile _ _ _).
        -- destruct (saveAll _ _); [discriminate|].
           intros [= _ <-]. simpl. split; [done|]. eexists. split; [done|]. apply Hsave.
        -- intros [= _ <-]. simpl. split; [done|]. eexists. split; [done|]. apply Hopen.
      * intros [= _ <-]. simpl. split; [done|]. eexists. split; [done|]. apply Hpre.
    + rewrite (execute_releaseStrategy_throws _ _ _ _ _ Hws Hrs).
      intros [= _ <-]. split; [done|]. exists []. rewrite app_nil_r.
      split; [done|]. intros argv. apply not_elem_of_nil.
  - rewrite (execute_no_workspace _ _ _ Hws).
    intros [= _ <-]. split; [done|]. exists []. rewrite app_nil_r.
    split; [done|]. intros argv. apply not_elem_of_nil.
Qed.

Lemma execute_failure_leaves_storage_witness :
  {| records := [Fixtures.record_of "change-1" "major"]; writable := false |}
  = {| records := [Fixtures.record_of "change-1" "major"]; writable := false |}
  ∧ ∃ events : list Event,
      [OpenVersionFile; ReleasesSet "pkg" "minor"; SaveAll] = ([] ++ events)%list
      ∧ ∀ argv, CliRun argv ∉ events.
Proof.
  apply (execute_failure_leaves_storage
           (Fixtures.command "minor" (Some true) None)
           (Fixtures.context_of false (Fixtures.workspace_at (Some "1.0.0")))
           {| storage := {| records := [Fixtures.record_of "change-1" "major"];
                            writable := false |};
              trace := [] |}
           {| storage := {| records := [Fixtures.record_of "change-1" "major"];
                            writable := false |};
              trace := [OpenVersionFile; ReleasesSet "pkg" "minor"; SaveAll] |}
           PersistenceError).
  vm_compute. reflexivity.
Defined.

(** ** Failures of the collaborators *)

(** X7: once the strategy is resolved and the guard is passed, an error of
    [openVersionFile] is the error of the command, with nothing set or
    saved; an error of [saveAll] is the error of the command, after the set
    and the save, and the apply command is not run. *)
Theorem record_failures_end_the_run `{VersionUtils} `{Cli}
    (this : VersionCommand) (context : Context) (ws : Workspace) (rs : string) (w : World) :
  context.(workspace) = Some ws →
  execute_releaseStrategy this ws = Ok rs →
  (execute_deferred context.(configuration) this = false →
   guard_passed context.(project) ws rs w.(storage)) →
  let pre := if execute_deferred context.(configuration) this
             then [] else [ResolveVersionFiles] in
  (∀ e, openVersionFile context.(project) true w.(storage) = Throw e →
        execute this context w =
          (Throw e, {| storage := w.(storage);
                       trace := w.(trace) ++ pre ++ [OpenVersionFile] |}))
  ∧ (∀ file e,
       openVersionFile context.(project) true w.(storage) = Ok file →
       saveAll (decided file ws rs) w.(storage) = Throw e →
       execute this context w =
         (Throw e, {| storage := w.(storage);
                      trace := w.(trace) ++ pre
                               ++ [OpenVersionFile; ReleasesSet ws.(ident) rs; SaveAll] |})).
Proof.
  intros Hws Hrs Hguard pre.
  assert (Hg : (if execute_deferred (configuration context) this then Ok tt
                else guard_result (project context) ws rs (storage w)) = Ok tt).
  { destruct (execute_deferred _ _); [done|].
    by apply guard_result_Ok, Hguard. }
  split.
  - intros e Hopen. by rewrite (execute_run _ _ _ _ _ Hws Hrs), Hg, Hopen.
  - intros file e Hopen Hsave.
    by rewrite (execute_run _ _ _ _ _ Hws Hrs), Hg, Hopen, Hsave.
Qed.

Lemma record_failures_end_the_run_witness :
  execute (Fixtures.command "minor" None None)
    (Fixtures.context_of false (Fixtures.workspace_at (Some "1.0.0")))
    {| storage := {| records := []; writable := false |}; trace := [] |}
  = (Throw PersistenceError,
     {| storage := {| records := []; writable := false |};
        trace := [ResolveVersionFiles; OpenVersionFile; ReleasesSet "pkg" "minor"; SaveAll] |}).
Proof.
  refine (proj2 (record_failures_end_the_run
            (Fixtures.command "minor" None None)
            (Fixtures.context_of false (Fixtures.workspace_at (Some "1.0.0")))
            (Fixtures.workspace_at (Some "1.0.0")) "minor"
            {| storage := {| records := []; writable := false |}; trace := [] |} _ _ _)
            {| locator := "change-3"; releases := ∅; nonce := 0 |} PersistenceError _ _).
  - reflexivity.
  - reflexivity.
  - intros _. exists ∅. split; [reflexivity|]. exact I.
  - reflexivity.
  - reflexivity.
Defined.

(** X8: in an immediate run, an error of [resolveVersionFiles], of
    [applyStrategy] on the release strategy, or of [semver.lt] on the
    candidate and the pending version is the error of the command; the
    ledger was read and the record was not opened. *)
Theorem guard_failures_end_the_run `{VersionUtils} `{Cli}
    (this : VersionCommand) (context : Context) (ws : Workspace) (rs : string) (w : World)
    (e : Error) :
  context.(workspace) = Some ws →
  execute_deferred context.(configuration) this = false →
  execute_releaseStrategy this ws = Ok rs →
  resolveVersionFiles context.(project) w.(storage) = Throw e
  ∨ (∃ ledger storedVersion,
       resolveVersionFiles context.(project) w.(storage) = Ok ledger ∧
       ledger !! ws.(ident) = Some storedVersion ∧
       (applyStrategy ws.(manifest).(version) rs = Throw e
        ∨ ∃ thisVersion, applyStrategy ws.(manifest).(version) rs = Ok thisVersion ∧
                         semver.lt thisVersion storedVersion = Throw e)) →
  execute this context w =
    (Throw e, {| storage := w.(storage); trace := w.(trace) ++ [ResolveVersionFiles] |}).
Proof.
  intros Hws Hd Hrs Hfail.
  rewrite (execute_run _ _ _ _ _ Hws Hrs), Hd.
  unfold guard_result, mbind, Result_bind.
  destruct Hfail as [-> | (ledger & stored & -> & -> & [-> | (thisVersion & -> & ->)])];
    done.
Qed.

(** A record that does not decode, left by another change, stops the
    immediate run. *)
Lemma guard_failures_end_the_run_witness :
  execute (Fixtures.command "minor" None None)
    (Fixtures.context_of false (Fixtures.workspace_at (Some "1.0.0")))
    (Fixtures.world_of [("change-1", Malformed)])
  = (Throw (MalformedRecordError "change-1"),
     {| storage := {| records := [("change-1", Malformed)]; writable := true |};
        trace := [ResolveVersionFiles] |}).
Proof.
  apply (guard_failures_end_the_run
           (Fixtures.command "minor" None None)
           (Fixtures.context_of false (Fixtures.workspace_at (Some "1.0.0")))
           (Fixtures.workspace_at (Some "1.0.0")) "minor"
           (Fixtures.world_of [("change-1", Malformed)])
           (MalformedRecordError "change-1")).
  - reflexivity.
  - reflexivity.
  - reflexivity.
  - left. reflexivity.
Defined.

(** ** The order of the calls *)

Lemma events_of_NoDup (d : bool) (ws : Workspace) (rs : string) :
  NoDup (events_of d ws rs).
Proof.
  unfold events_of. destruct d; simpl;
    rewrite ?NoDup_cons, ?not_elem_of_cons; repeat split;
    try discriminate; try apply not_elem_of_nil; apply NoDup_nil_2.
Qed.

(** X9: whatever the outcome, the calls of a run are an initial segment of
    the sequence ledger (immediate runs only), open, set, save, apply
    (immediate runs only): no call is made twice or out of order, and none
    is made when the workspace is missing or the strategy does not
    resolve. *)
Theorem execute_calls_in_order `{VersionUtils} `{Cli}
    (this : VersionCommand) (context : Context) (w w' : World) (r : Result unit) :
  execute this context w = (r, w') →
  ∃ events : list Event,
    w'.(trace) = (w.(trace) ++ events)%list ∧
    NoDup events ∧
    match context.(workspace) with
    | None => events = []
    | Some ws =>
        match execute_releaseStrategy this ws with
        | Throw _ => events = []
        | Ok rs => events `prefix_of`
                     events_of (execute_deferred context.(configuration) this) ws rs
        end
    end.
Proof.
  destruct (workspace context) as [ws|] eqn:Hws.
  - destruct (execute_releaseStrategy this ws) as [rs|e'] eqn:Hrs.
    + rewrite (execute_run _ _ _ _ _ Hws Hrs).
      assert (Hsub : ∀ events r0 st,
                events `prefix_of`
                  events_of (execute_deferred (configuration context) this) ws rs →
                (r0, {| storage := st; trace := trace w ++ events |}) = (r, w') →
                ∃ events0 : list Event,
                  trace w' = (trace w ++ events0)%list ∧ NoDup events0 ∧
                  events0 `prefix_of`
                    events_of (execute_deferred (configuration context) this) ws rs).
      { intros events r0 st Hpre [= _ <-]. exists events. split; [done|]. split; [|done].
        destruct Hpre as [k Hk].
        pose proof (events_of_NoDup (execute_deferred (configuration context) this) ws rs)
          as Hnd.
        rewrite Hk in Hnd. by apply NoDup_app in Hnd as [? _]. }
      unfold events_of in *.
      destruct (execute_deferred (configuration context) this); simpl in *.
      * destruct (openVersionFile _ _ _).
        -- destruct (saveAll _ _); apply Hsub; by eexists [].
        -- apply Hsub. by eexists [_; _].
      * destruct (guard_result _ _ _ _).
        -- destruct (openVersionFile _ _ _).
           ++ destruct (saveAll _ _); apply Hsub; [by eexists []|by eexists [_]].
           ++ apply Hsub. by eexists [_; _; _].
        -- apply Hsub. by eexists [_; _; _; _].
    + rewrite (execute_releaseStrategy_throws _ _ _ _ _ Hws Hrs).
      intros [= _ <-]. exists []. rewrite app_nil_r.
    split; [done|]. split; [apply NoDup_nil_2|done].
  - rewrite (execute_no_workspace _ _ _ Hws).
    intros [= _ <-]. exists []. rewrite app_nil_r.
    split; [done|]. split; [apply NoDup_nil_2|done].
Qed.

Lemma execute_calls_in_order_witness :
  ∃ events : list Event,
    [ResolveVersionFiles] = ([] ++ events)%list ∧
    NoDup events ∧
    events `prefix_of` events_of false (Fixtures.workspace_at (Some "1.8.0")) "minor".
Proof.
  apply (execute_calls_in_order
           (Fixtures.command "minor" None None)
           (Fixtures.context_of false (Fixtures.workspace_at (Some "1.8.0")))
           (Fixtures.world_of [Fixtures.record_of "change-1" "major"])
           {| storage := {| records := [Fixtures.record_of "change-1" "major"];
                            writable := true |};
              trace := [ResolveVersionFiles] |}
           (Throw (UsageError (lower_version_message "2.0.0")))).
  vm_compute. reflexivity.
Defined.

(** X12: a deferred run, whatever its outcome, neither reads the merged
    ledger nor runs any command. *)
Theorem deferred_run_never_resolves_nor_applies `{VersionUtils} `{Cli}
    (this : VersionCommand) (context : Context) (w w' : World) (r : Result unit) :
  execute_deferred context.(configuration) this = true →
  execute this context w = (r, w') →
  ∃ events : list Event,
    w'.(trace) = (w.(trace) ++ events)%list ∧
    (ResolveVersionFiles ∉ events) ∧
    ∀ argv, CliRun argv ∉ events.
Proof.
  intros Hd.
  assert (Hnil : ∀ r0 : Result unit, (r0, w) = (r, w') →
            ∃ events : list Event, trace w' = (trace w ++ events)%list ∧
              (ResolveVersionFiles ∉ events) ∧ ∀ argv, CliRun argv ∉ events).
  { intros r0 [= _ <-]. exists []. rewrite app_nil_r.
    repeat split; [apply not_elem_of_nil|]. intros argv. apply not_elem_of_nil. }
  destruct (workspace context) as [ws|] eqn:Hws.
  - destruct (execute_releaseStrategy this ws) as [rs|e'] eqn:Hrs.
    + rewrite (execute_run _ _ _ _ _ Hws Hrs), Hd. unfold events_of. simpl.
      destruct (openVersionFile _ _ _).
      * destruct (saveAll _ _); intros [= _ <-]; eexists; (split; [done|]);
          rewrite ?not_elem_of_cons; repeat split; try discriminate;
          try apply not_elem_of_nil;
          intros argv; rewrite ?not_elem_of_cons; repeat split; try discriminate;
          apply not_elem_of_nil.
      * intros [= _ <-]; eexists; (split; [done|]).
        rewrite ?not_elem_of_cons; repeat split; try discriminate;
          try apply not_elem_of_nil;
          intros argv; rewrite ?not_elem_of_cons; repeat split; try discriminate;
          apply not_elem_of_nil.
    + rewrite (execute_releaseStrategy_throws _ _ _ _ _ Hws Hrs). apply Hnil.
  - rewrite (execute_no_workspace _ _ _ Hws). apply Hnil.
Qed.

Lemma deferred_run_never_resolves_nor_applies_witness :
  ∃ events : list Event,
    [OpenVersionFile] = ([] ++ events)%list ∧
    (ResolveVersionFiles ∉ events) ∧
    ∀ argv, CliRun argv ∉ events.
Proof.
  apply (deferred_run_never_resolves_nor_applies
           (Fixtures.command "minor" (Some true) None)
           (Fixtures.context_of false (Fixtures.workspace_at (Some "1.0.0")))
           (Fixtures.world_of [("change-3", Malformed)])
           {| storage := {| records := [("change-3", Malformed)]; writable := true |};
              trace := [OpenVersionFile] |}
           (Throw (MalformedRecordError "change-3"))).
  - reflexivity.
  - vm_compute. reflexivity.
Defined.

(** ** The record that is saved *)

(** X10: in a run that succeeds, the record handed to [saveAll] is the
    record that [openVersionFile] returned, under the same locator and with
    the same nonce, with the entry of the current workspace set to the
    release strategy and the decisions on every other workspace as they
    were opened; the final storage is what that save produced, passed
    through the apply command in an immediate run. *)
Theorem execute_sets_one_entry `{VersionUtils} `{Cli}
    (this : VersionCommand) (context : Context) (w w' : World) :
  execute this context w = (Ok tt, w') →
  ∃ ws rs opened saved st,
    context.(workspace) = Some ws ∧
    execute_releaseStrategy this ws = Ok rs ∧
    openVersionFile context.(project) true w.(storage) = Ok opened ∧
    saved = {| locator := opened.(locator);
               releases := <[ws.(ident) := rs]> opened.(releases);
               nonce := opened.(nonce) |} ∧
    saveAll saved w.(storage) = Ok st ∧
    w'.(storage) = (if execute_deferred context.(configuration) this
                    then st else run ["version"; "apply"] st) ∧
    saved.(releases) !! ws.(ident) = Some rs ∧
    ∀ other, other ≠ ws.(ident) →
             saved.(releases) !! other = opened.(releases) !! other.
Proof.
  intros Hrun.
  destruct (execute_Ok_inv _ _ _ _ Hrun)
    as (ws & rs & file & st & Hws & Hrs & Hopen & Hsave & Hw' & _).
  exists ws, rs, file, (decided file ws rs), st.
  repeat split; try done.
  - by rewrite Hw'.
  - apply lookup_insert_eq.
  - intros other Hne. by apply lookup_insert_ne.
Qed.

Lemma execute_sets_one_entry_witness :
  ∃ ws rs opened saved st,
    Some (Fixtures.workspace_at (Some "1.0.0")) = Some ws ∧
    execute_releaseStrategy (Fixtures.command "minor" (Some true) None) ws = Ok rs ∧
    openVersionFile (Fixtures.project_of (Fixtures.workspace_at (Some "1.0.0"))) true
      {| records := [("change-3", Wellformed {[ "other" := "major" ]} 7)]; writable := true |}
    = Ok opened ∧
    saved = {| locator := opened.(locator);
               releases := <[ws.(ident) := rs]> opened.(releases);
               nonce := opened.(nonce) |} ∧
    saveAll saved
      {| records := [("change-3", Wellformed {[ "other" := "major" ]} 7)]; writable := true |}
    = Ok st ∧
    {| records := [("change-3", Wellformed {[ "other" := "major"; "pkg" := "minor" ]} 7)];
       writable := true |} = st ∧
    saved.(releases) !! ws.(ident) = Some rs ∧
    ∀ other, other ≠ ws.(ident) →
             saved.(releases) !! other = opened.(releases) !! other.
Proof.
  apply (execute_sets_one_entry
           (Fixtures.command "minor" (Some true) None)
           (Fixtures.context_of false (Fixtures.workspace_at (Some "1.0.0")))
           (Fixtures.world_of [("change-3", Wellformed {[ "other" := "major" ]} 7)])
           {| storage :=
                {| records := [("change-3",
                                Wellformed {[ "other" := "major"; "pkg" := "minor" ]} 7)];
                   writable := true |};
              trace := [OpenVersionFile; ReleasesSet "pkg" "minor"; SaveAll] |}).
  vm_compute. reflexivity.
Defined.

(** ** The guard is strict *)

Lemma valid_SemVer_new (s : string) :
  semver.valid s ≠ None → ∃ v, semver.SemVer_new s = Ok v.
Proof.
  unfold semver.valid, semver.parse.
  destruct (decide _); [done|].
  destruct (semver.match_FULL _); [|done].
  destruct (semver.SemVer_new s) as [v|]; [|done].
  by exists v.
Qed.

Lemma comparePre_loop_same (p : list semver.Identifier) :
  semver.comparePre_loop p p = Eq.
Proof. induction p as [|a p IH]; simpl; [done|]. by destruct (decide (a = a)). Qed.

Lemma SemVer_compare_same (v : semver.SemVer) :
  semver.SemVer_compare v v = Eq.
Proof.
  unfold semver.SemVer_compare, semver.compareMain, semver.comparePre,
    semver.compare_prerelease.
  rewrite !N.compare_refl. simpl.
  destruct (semver.prerelease v) as [|a p] eqn:Hp; [done|].
  rewrite <- Hp. destruct (semver.prerelease v); [done|]. apply comparePre_loop_same.
Qed.

Lemma lt_same (s : string) :
  semver.valid s ≠ None → semver.lt s s = Ok false.
Proof.
  intros [v Hv]%valid_SemVer_new.
  unfold semver.lt, semver.compare, fmap, Result_fmap, mbind, Result_bind.
  by rewrite Hv, SemVer_compare_same.
Qed.

(** X13: the regression guard is strict: in an immediate run whose
    candidate is the very version the ledger holds, a valid one, the
    decision goes through, is saved, and the apply command is run. *)
Theorem pending_version_requested_again `{VersionUtils} `{Cli}
    (this : VersionCommand) (context : Context) (ws : Workspace) (rs : string)
    (ledger : gmap string string) (storedVersion : string)
    (file : VersionFile) (st : Storage) (w : World) :
  context.(workspace) = Some ws →
  execute_deferred context.(configuration) this = false →
  execute_releaseStrategy this ws = Ok rs →
  resolveVersionFiles context.(project) w.(storage) = Ok ledger →
  ledger !! ws.(ident) = Some storedVersion →
  applyStrategy ws.(manifest).(version) rs = Ok storedVersion →
  semver.valid storedVersion ≠ None →
  openVersionFile context.(project) true w.(storage) = Ok file →
  saveAll (decided file ws rs) w.(storage) = Ok st →
  execute this context w =
    (Ok tt, {| storage := run ["version"; "apply"] st;
               trace := w.(trace) ++ [ResolveVersionFiles; OpenVersionFile;
                                      ReleasesSet ws.(ident) rs; SaveAll;
                                      CliRun ["version"; "apply"]] |}).
Proof.
  intros Hws Hd Hrs Hres Hl Happ Hv Hopen Hsave.
  rewrite (execute_run _ _ _ _ _ Hws Hrs), Hd.
  unfold guard_result, mbind, Result_bind.
  by rewrite Hres, Hl, Happ, (lt_same _ Hv), Hopen, Hsave.
Qed.

(** Another change has [minor] pending at 1.0.0, hence 1.1.0 in the ledger,
    and this change asks for [minor] as well. *)
Lemma pending_version_requested_again_witness :
  execute (Fixtures.command "minor" None None)
    (Fixtures.context_of false (Fixtures.workspace_at (Some "1.0.0")))
    (Fixtures.world_of [Fixtures.record_of "change-1" "minor"])
  = (Ok tt,
     {| storage := {| records := [Fixtures.record_of "change-1" "minor";
                                  Fixtures.record_of "change-3" "minor"];
                      writable := true |};
        trace := [ResolveVersionFiles; OpenVersionFile; ReleasesSet "pkg" "minor"; SaveAll;
                  CliRun ["version"; "apply"]] |}).
Proof.
  refine (@pending_version_requested_again versionUtils_spec cli_spec
           (Fixtures.command "minor" None None)
           (Fixtures.context_of false (Fixtures.workspace_at (Some "1.0.0")))
           (Fixtures.workspace_at (Some "1.0.0")) "minor"
           {[ "pkg" := "1.1.0" ]} "1.1.0"
           {| locator := "change-3"; releases := ∅; nonce := 0 |}
           {| records := [Fixtures.record_of "change-1" "minor";
                          Fixtures.record_of "change-3" "minor"];
              writable := true |}
           (Fixtures.world_of [Fixtures.record_of "change-1" "minor"])
           _ _ _ _ _ _ _ _ _);
    try (vm_compute; reflexivity).
  vm_compute. discriminate.
Defined.
